(** * Reviewer lottery: a shallow embedding of [src/lottery.ts]

    The class [Lottery] assigns reviewers to a pull request: it looks the
    pull request up, checks that it is not a draft, draws reviewers group
    by group ([selectReviewers], [pickRandom]), requests them on the pull
    request and posts a Slack message.

    Conventions of the embedding:
    - a JavaScript value that is a string or [undefined] is an
      [option string], [None] being [undefined];
    - the mutable field [this.pr], the global random source behind
      [Math.random] and the calls made to the outside world (Octokit,
      the Slack webhook, [@actions/core], the console) live in a [Store]
      that every method threads;
    - [async] methods are awaited one after the other in the source, so a
      method is a function from the store to a completion: a value, a
      thrown error, or [OutOfFuel] when the [while] loop of [pickRandom]
      has not left after the given number of iterations. *)

From Stdlib Require Import Ascii String.
From stdpp Require Import base option list strings gmap.

Local Open Scope string_scope.
Local Open Scope list_scope.
Local Open Scope nat_scope.

(** ** JavaScript library functions used by the source *)

(** [s.split(sep)] for a one-character separator. The result of [split]
    is never empty: it is given as its first element and the rest. *)
Fixpoint split (sep : ascii) (s : string) : string * list string :=
  match s with
  | EmptyString => (EmptyString, [])
  | String c rest =>
      let '(hd, tl) := split sep rest in
      if Ascii.eqb c sep then (EmptyString, hd :: tl) else (String c hd, tl)
  end.

(** [array.includes(x)] on strings and [undefined]: plain equality. *)
Definition includes {A} {dec : EqDecision A} (l : list A) (x : A) : bool :=
  bool_decide (x ∈ l).

(** [array.join(sep)]. *)
Fixpoint join (sep : string) (l : list string) : string :=
  match l with
  | [] => ""
  | [x] => x
  | x :: rest => x +:+ sep +:+ join sep rest
  end.

(** What [${v}] prints inside a template literal. *)
Inductive JsValue :=
  | JsUndefined
  | JsString (s : string)
  | JsObjectPrototype
  | JsBuiltin (fname : string).

Definition template (v : JsValue) : string :=
  match v with
  | JsUndefined => "undefined"
  | JsString s => s
  | JsObjectPrototype => "[object Object]"
  | JsBuiltin fname => "function " +:+ fname +:+ "() { [native code] }"
  end.

Definition of_option (v : option string) : JsValue :=
  match v with Some s => JsString s | None => JsUndefined end.

(** The key under which [obj[r]] looks up a string or [undefined]. *)
Definition property_key (r : option string) : string :=
  match r with Some s => s | None => "undefined" end.

(** A plain object [{}] used as a table from strings to strings, as
    [usernameToSlackMap] is. Its own properties are a finite map; what it
    inherits from [Object.prototype] shows through for names that were
    never written, and ["__proto__"] is an accessor: writing a string or
    [undefined] to it changes nothing and reading it gives the prototype. *)
Definition object_prototype : list (string * string) :=
  [ ("constructor", "Object");
    ("hasOwnProperty", "hasOwnProperty");
    ("isPrototypeOf", "isPrototypeOf");
    ("propertyIsEnumerable", "propertyIsEnumerable");
    ("toLocaleString", "toLocaleString");
    ("toString", "toString");
    ("valueOf", "valueOf");
    ("__defineGetter__", "__defineGetter__");
    ("__defineSetter__", "__defineSetter__");
    ("__lookupGetter__", "__lookupGetter__");
    ("__lookupSetter__", "__lookupSetter__") ].

Definition object_set (k : string) (v : option string)
    (o : gmap string (option string)) : gmap string (option string) :=
  if bool_decide (k = "__proto__") then o else <[k := v]> o.

Definition object_get (o : gmap string (option string)) (k : string) : JsValue :=
  if bool_decide (k = "__proto__") then JsObjectPrototype
  else match o !! k with
       | Some v => of_option v
       | None =>
           match list_to_map (M := gmap string string) object_prototype !! k with
           | Some fname => JsBuiltin fname
           | None => JsUndefined
           end
       end.

(** ** Data model *)

(** [interface Pull]. [user] is the login, [None] for a [null] user;
    [draft] is an optional field. *)
Record Pull := {
  user : option string;
  number : nat;
  draft : option bool;
  title : string;
  url : string
}.

(** One element of the answer of [octokit.pulls.list]: the fields of
    [Pull] and [head.ref]. *)
Record PullData := {
  head_ref : string;
  pull : Pull
}.

(** [interface Env]. *)
Record Env := {
  repository : string;
  ref : string
}.

(** Modelled from the spec: the type [Config] of [./config], which the
    source imports and only uses through [config.groups] and the fields
    [reviewers], [internal_reviewers] and [usernames] of a group. A group
    has an optional name, its ["username:contactHandle"] entries, a
    reviewer count and an optional internal reviewer count. The file is
    not validated when read, so a count or the entry list may be absent;
    an absent field is [None]. *)
Record ReviewerGroup := {
  name : option string;
  usernames : option (list string);
  reviewers : option nat;
  internal_reviewers : option nat
}.

Record Config := {
  groups : list ReviewerGroup
}.

Inductive JsError := Error (message : string).

(** The collaborators: what [octokit.pulls.list] answers ([inl] when the
    request is rejected) and whether [octokit.pulls.requestReviewers] is
    rejected. *)
Record Octokit := {
  pulls_list : JsError + list PullData;
  pulls_requestReviewers : option JsError
}.

(** The observable calls, in the order they are made. *)
Inductive Event :=
  | ConsoleLog (msg : string)
  | ConsoleLogTable (label : string) (table : gmap string (option string))
  | CoreError (e : JsError)
  | CoreSetFailed (e : JsError)
  | PullsList (owner : string) (repo : option string)
  | RequestReviewers (owner : string) (repo : option string)
      (pull_number : option nat) (requested : list (option string))
  | WebhookSend (text : string).

(** [Math.random] as a sequence of draws still to come. *)
Definition RandomSource := nat → nat.

Record Store := {
  pr : option Pull;
  random : RandomSource;
  trace : list Event
}.

(** ** Completions and the method monad *)

Inductive Completion (A : Type) :=
  | Normal (a : A) (s : Store)
  | Throw (e : JsError) (s : Store)
  | OutOfFuel.
Arguments Normal {A} a s.
Arguments Throw {A} e s.
Arguments OutOfFuel {A}.

Definition Method (A : Type) : Type := Store → Completion A.

#[global] Instance Method_ret : MRet Method := λ A a s, Normal a s.

#[global] Instance Method_bind : MBind Method := λ A B k m s,
  match m s with
  | Normal a s' => k a s'
  | Throw e s' => Throw e s'
  | OutOfFuel => OutOfFuel
  end.

Definition throw {A} (e : JsError) : Method A := λ s, Throw e s.

(** [try { body } catch (error) { handler }]. *)
Definition try_catch {A} (body : Method A) (handler : JsError → Method A)
    : Method A := λ s,
  match body s with
  | Throw e s' => handler e s'
  | c => c
  end.

Definition emit (ev : Event) : Method unit := λ s,
  Normal tt {| pr := pr s; random := random s; trace := trace s ++ [ev] |}.

Definition console_log (msg : string) : Method unit := emit (ConsoleLog msg).
Definition core_error (e : JsError) : Method unit := emit (CoreError e).
Definition core_setFailed (e : JsError) : Method unit := emit (CoreSetFailed e).

(** [cond && (await method)] as a statement. *)
Definition and_then (cond : bool) (m : Method unit) : Method unit :=
  if cond then m else mret tt.

Definition get_pr : Method (option Pull) := λ s, Normal (pr s) s.

Definition set_pr (p : option Pull) : Method unit := λ s,
  Normal tt {| pr := p; random := random s; trace := trace s |}.

(** ** The sampler *)

(** [Math.floor(Math.random() * len)]: [Math.random()] lies in [0, 1), so
    the index is [0] when [len] is [0] and below [len] otherwise; [u] is
    the draw, reduced to that range. *)
Definition random_index (u len : nat) : nat :=
  match len with
  | 0 => 0
  | S _ => u `mod` len
  end.

Definition next_draws (rs : RandomSource) : RandomSource := λ k, rs (S k).

(** The [while (picks.length < n)] loop of [pickRandom]. One iteration:
    [candidates.splice(random, 1)[0]] takes the element at [random] out of
    [candidates], and is [undefined] when there is none; the pick is
    pushed unless [picks] has it already. *)
Fixpoint pick_loop (fuel n : nat) (candidates : list string)
    (picks : list (option string)) (rs : RandomSource)
    : option (list (option string) * RandomSource) :=
  if bool_decide (length picks < n) then
    match fuel with
    | 0 => None
    | S fuel' =>
        let random := random_index (rs 0) (length candidates) in
        let pick : option string := candidates !! random in
        let candidates' := delete random candidates in
        let picks' := if includes picks pick then picks else picks ++ [pick] in
        pick_loop fuel' n candidates' picks' (next_draws rs)
    end
  else Some (picks, rs).

(** [items.filter(item => !ignore.includes(item))]. *)
Definition eligible (items : list string) (ignore : list (option string))
    : list string :=
  filter (λ item, includes ignore (Some item) = false) items.

(** [pickRandom(items, n, ignore)], given the draws of [Math.random];
    [None] when the loop is still running after [fuel] iterations. *)
Definition pickRandom (fuel : nat) (items : list string) (n : nat)
    (ignore : list (option string)) (rs : RandomSource)
    : option (list (option string) * RandomSource) :=
  pick_loop fuel n (eligible items ignore) [] rs.

(** The number of distinct eligible items. *)
Definition pool_size (items : list string) (ignore : list (option string))
    : nat :=
  length (remove_dups (eligible items ignore)).

(** The usernames of a list of picks: its entries that are not
    [undefined]. *)
Definition defined (picks : list (option string)) : list string :=
  omap id picks.

(** [this.pickRandom(items, n, ignore)] as a method: the draws come from
    the store. *)
Definition call_pickRandom (fuel : nat) (items : list string) (n : nat)
    (ignore : list (option string)) : Method (list (option string)) := λ s,
  match pickRandom fuel items n ignore (random s) with
  | Some (picks, rs) =>
      Normal picks {| pr := pr s; random := rs; trace := trace s |}
  | None => OutOfFuel
  end.

(** ** The class [Lottery] *)

(** [!!r] on a string or [undefined], and on a count or [undefined]. *)
Definition truthy_string (r : option string) : bool :=
  match r with
  | Some s => negb (bool_decide (s = ""))
  | None => false
  end.

Definition truthy_number (n : option nat) : bool :=
  match n with
  | Some (S _) => true
  | _ => false
  end.

(** The constant [reviewersToRequest] of [selectReviewers]:
    [usernames.includes(author) && internalReviewers ? internalReviewers
    : reviewers]. *)
Definition reviewersToRequest (usernames : list string) (author : string)
    (reviewers internalReviewers : option nat) : option nat :=
  if includes usernames author && truthy_number internalReviewers
  then internalReviewers
  else reviewers.

(** [usernamesIncludingSlackName.map(name => name.split(':')[0])]. *)
Definition strip_handles (entries : list string) : list string :=
  map (λ name, (split ":" name).1) entries.

(** The two inner statements of the loop of [alertOnSlack]:
    [const [username, slackEmail] = user.split(':')] and
    [usernameToSlackMap[username] = slackEmail]. *)
Definition add_entry (table : gmap string (option string)) (user : string)
    : gmap string (option string) :=
  let '(username, rest) := split ":" user in
  object_set username (head rest) table.

(** The error of [undefined.map(...)], and of iterating [undefined]. *)
Definition map_of_undefined : JsError :=
  Error "Cannot read properties of undefined (reading 'map')".

Definition not_iterable : JsError :=
  Error "usernamesIncludingSlackEmail is not iterable".

(** The nested loops of [alertOnSlack] over the groups. Iterating over an
    absent [usernames] throws. *)
Fixpoint slack_table (gs : list ReviewerGroup)
    (table : gmap string (option string))
    : JsError + gmap string (option string) :=
  match gs with
  | [] => inr table
  | g :: rest =>
      match usernames g with
      | None => inl not_iterable
      | Some entries => slack_table rest (foldl add_entry table entries)
      end
  end.

(** [`@${usernameToSlackMap[username]}`]. *)
Definition mention (table : gmap string (option string))
    (username : option string) : string :=
  "@" +:+ template (object_get table (property_key username)).

Definition slackUsernames (table : gmap string (option string))
    (reviewers : list (option string)) : string :=
  join ", " (map (mention table) reviewers).

Definition newline : string := String "010"%char EmptyString.

(** The text of the Slack block; [title] and [url] are [this.pr?.title]
    and [this.pr?.url]. *)
Definition slack_text (mentions : string) (title url : option string)
    : string :=
  "<" +:+ mentions +:+ "> Has been assigned to _" +:+
  template (of_option title) +:+ "_. " +:+ newline +:+ newline +:+
  "<" +:+ template (of_option url) +:+ "|View pull request>".

Section Lottery.
Context (config : Config) (env : Env) (octokit : Octokit).

Definition getOwnerAndRepo : string * option string :=
  let '(owner, rest) := split "/" (repository env) in (owner, head rest).

(** [Number(this.pr?.number)]; [None] is [NaN]. *)
Definition getPRNumber : Method (option nat) :=
  p ← get_pr; mret (number <$> p).

Definition octokit_pulls_list (ownerAndRepo : string * option string)
    : Method (list PullData) :=
  emit (PullsList ownerAndRepo.1 ownerAndRepo.2);;
  match pulls_list octokit with
  | inl e => throw e
  | inr data => mret data
  end.

Definition octokit_pulls_requestReviewers
    (ownerAndRepo : string * option string) (pull_number : option nat)
    (requested : list (option string)) : Method unit :=
  emit (RequestReviewers ownerAndRepo.1 ownerAndRepo.2 pull_number
          requested);;
  match pulls_requestReviewers octokit with
  | Some e => throw e
  | None => mret tt
  end.

Definition getPR : Method (option Pull) :=
  cached ← get_pr;
  match cached with
  | Some p => mret (Some p)
  | None =>
      try_catch
        (data ← octokit_pulls_list getOwnerAndRepo;
         let found :=
           pull <$> List.find (λ d, bool_decide (head_ref d = ref env)) data in
         set_pr found;;
         match found with
         | None =>
             throw (Error ("PR matching ref not found: " +:+ ref env))
         | Some p => mret (Some p)
         end)
        (λ error, core_error error;; core_setFailed error;; mret None)
  end.

Definition isReadyToReview : Method bool :=
  try_catch
    (p ← getPR;
     mret (match p with
           | Some p => negb (default false (draft p))
           | None => false
           end))
    (λ error, core_error error;; core_setFailed error;; mret false).

Definition getPRAuthor : Method string :=
  try_catch
    (p ← getPR;
     mret (match p with
           | Some p => default "" (user p)
           | None => ""
           end))
    (λ error, core_error error;; core_setFailed error;; mret "").

Definition setReviewers (reviewers : list (option string)) : Method unit :=
  let ownerAndRepo := getOwnerAndRepo in
  prNumber ← getPRNumber;
  octokit_pulls_requestReviewers ownerAndRepo prNumber
    (filter (λ r, truthy_string r = true) reviewers).

Definition alertOnSlack (reviewers : list (option string)) : Method unit :=
  match slack_table (groups config) ∅ with
  | inl e => throw e
  | inr usernameToSlackMap =>
      emit (ConsoleLogTable "usernameToSlackMap" usernameToSlackMap);;
      p ← get_pr;
      emit (WebhookSend
              (slack_text (slackUsernames usernameToSlackMap reviewers)
                 (title <$> p) (url <$> p)))
  end.

(** The body of the [try] block of [selectReviewers]: the loop over the
    groups. [selected] is declared outside the block, so what it holds
    when the block is left, normally or by an error, is what the method
    goes on with: the loop gives it back with the error, if any. Taking
    [.map] of an absent [usernames] throws. *)
Fixpoint select_groups (fuel : nat) (author : string)
    (gs : list ReviewerGroup) (selected : list (option string))
    : Method (list (option string) * option JsError) :=
  match gs with
  | [] => mret (selected, None)
  | g :: rest =>
      match usernames g with
      | None =>
          mret (selected, Some map_of_undefined)
      | Some usernamesIncludingSlackName =>
          let usernames := strip_handles usernamesIncludingSlackName in
          match reviewersToRequest usernames author
                  (reviewers g) (internal_reviewers g) with
          | Some (S k) =>
              picks ← call_pickRandom fuel usernames (S k)
                        (selected ++ [Some author]);
              select_groups fuel author rest (selected ++ picks)
          | _ => select_groups fuel author rest selected
          end
      end
  end.

Definition selectReviewers (fuel : nat) : Method (list (option string)) :=
  author ← getPRAuthor;
  '(selected, thrown) ← select_groups fuel author (groups config) [];
  match thrown with
  | Some error => core_error error;; core_setFailed error
  | None => mret tt
  end;;
  mret selected.

Definition run (fuel : nat) : Method unit :=
  console_log "RUNNING LOTTERY RUN FUNCTION";;
  try_catch
    (isReadyToReview ≫= λ ready : bool,
     if ready then
       reviewers ← selectReviewers fuel;
       and_then (bool_decide (0 < length reviewers)) (setReviewers reviewers);;
       and_then (bool_decide (0 < length reviewers)) (alertOnSlack reviewers)
     else mret tt)
    (λ error, core_error error;; core_setFailed error).

End Lottery.

(** [new Lottery(...)]: no pull request cached yet. *)
Definition new_store (rs : RandomSource) : Store :=
  {| pr := None; random := rs; trace := [] |}.

Definition runLottery (octokit : Octokit) (config : Config) (env : Env)
    (fuel : nat) (rs : RandomSource) : Completion unit :=
  (console_log "RUNNING LOTTERY FUNCTION";; run config env octokit fuel)
    (new_store rs).

(** The calls to the reviewer-request API and to the Slack webhook in a
    trace. *)
Definition is_call (ev : Event) : bool :=
  match ev with
  | RequestReviewers _ _ _ _ | WebhookSend _ => true
  | _ => false
  end.

Definition calls (t : list Event) : list Event :=
  filter (λ ev, is_call ev = true) t.

(** All the entries of the configuration, in group order. *)
Definition all_entries (gs : list ReviewerGroup) : list string :=
  concat (omap usernames gs).

(** ** Configurations and pull requests of the scenarios *)

Definition group_of (entries : list string) (count : nat)
    (internal : option nat) : ReviewerGroup :=
  {| name := None; usernames := Some entries;
     reviewers := Some count; internal_reviewers := internal |}.

(** A group whose [usernames] key is missing. *)
Definition broken_group : ReviewerGroup :=
  {| name := None; usernames := None;
     reviewers := Some 1; internal_reviewers := None |}.

Definition pull_by (login : string) (is_draft : option bool) : Pull :=
  {| user := Some login; number := 7; draft := is_draft;
     title := "Add feature"; url := "https://example.test/pulls/7" |}.

Definition example_env : Env :=
  {| repository := "octo/repo"; ref := "feature" |}.

Definition octokit_with (p : Pull) : Octokit :=
  {| pulls_list := inr [ {| head_ref := "feature"; pull := p |} ];
     pulls_requestReviewers := None |}.

(** A lottery whose pull request is cached already. *)
Definition cached_store (p : Pull) : Store :=
  {| pr := Some p; random := λ _, 0; trace := [] |}.

(** Scenario B of the specification. *)
Definition scenario_B : Config :=
  {| groups := [group_of ["a"; "b"] 1 (Some 2)] |}.

(** A configuration without groups. *)
Definition no_groups : Config := {| groups := [] |}.

(** Scenario D of the specification: two groups that share ["b"]. *)
Definition scenario_D : Config :=
  {| groups := [group_of ["a"; "b"; "c"] 1 None; group_of ["b"; "d"] 1 None] |}.

(** Two groups with the same single member. *)
Definition two_exhausted_groups : Config :=
  {| groups := [group_of ["a"] 1 None; group_of ["a"] 1 None] |}.

(** A group that cannot be processed between two that can. *)
Definition broken_second_group : Config :=
  {| groups := [group_of ["b"] 1 None; broken_group; group_of ["c"] 1 None] |}.

(** A user listed without a contact handle in one group and with one in
    the next. *)
Definition handle_in_second_group : Config :=
  {| groups := [group_of ["bob"] 1 None; group_of ["bob:U1"] 1 None] |}.

(** A user listed without a contact handle only. *)
Definition no_handle : Config :=
  {| groups := [group_of ["amy:U7"; "bob"] 1 None] |}.

(** ** The entry points [main.ts] *)

Definition error_message (e : JsError) : string :=
  match e with Error msg => msg end.

(** [process.env.X || '']. *)
Definition or_empty (v : option string) : string :=
  match v with
  | Some x => if truthy_string v then x else ""
  | None => ""
  end.

(** What an entry point does that can be seen: the events of the lottery,
    and its own calls of [core.setCommandEcho], [console.log] and
    [core.setFailed(error.message)]. *)
Inductive MainEvent :=
  | OfLottery (ev : Event)
  | SetCommandEcho (enabled : bool)
  | MainLog (msg : string)
  | SetFailedMessage (msg : string).

Section Main.
Context (vars : gmap string string).
Context (getInput : string → JsError + string).
Context (getConfig : JsError + Config).
Context (octokit_for : string → Octokit).

(** The statements of the [try] block of [run] in an entry point, up to
    the call of [runLottery]. [vars] is [process.env]; [getInput name] is
    [core.getInput(name, {required: true})] and [getConfig] is
    [getConfig()] of [./config], [inl] when they throw; [checked] is the
    variable that the file tests first. *)
Definition main_setup (checked : string) : JsError + (string * string * Config) :=
  if negb (truthy_string (vars !! checked))
  then inl (Error ("missing " +:+ checked))
  else if negb (truthy_string (vars !! "GITHUB_REPOSITORY"))
  then inl (Error "missing GITHUB_REPOSITORY")
  else
    match getInput "repo-token" with
    | inl error => inl error
    | inr token =>
        match getInput "slack-webhook-url" with
        | inl error => inl error
        | inr slackWebhookUrl =>
            match getConfig with
            | inl error => inl error
            | inr config => inr (token, slackWebhookUrl, config)
            end
        end
    end.

(** The environment that [runLottery] takes by default. *)
Definition default_env : Env :=
  {| repository := or_empty (vars !! "GITHUB_REPOSITORY");
     ref := or_empty (vars !! "GITHUB_HEAD_REF") |}.

(** [run] of an entry point; [octokit_for token] is what GitHub answers to
    [new Octokit({auth: token})]. [None] when the lottery is still
    running. *)
Definition main_run (checked : string) (fuel : nat) (rs : RandomSource)
    : option (list MainEvent) :=
  match main_setup checked with
  | inl error => Some [SetFailedMessage (error_message error)]
  | inr (token, _, config) =>
      match runLottery (octokit_for token) config default_env fuel rs with
      | Normal _ s => Some (OfLottery <$> trace s)
      | Throw error s =>
          Some ((OfLottery <$> trace s)
                ++ [SetFailedMessage (error_message error)])
      | OutOfFuel => None
      end
  end.

(** [src/main.ts]: it tests [GITHUB_REF]. *)
Definition main_ts (fuel : nat) (rs : RandomSource) : option (list MainEvent) :=
  main_run "GITHUB_REF" fuel rs.

(** The other entry file: it tests [GITHUB_HEAD_REF], and turns the
    command echo on and logs a line before it calls [run]. *)
Definition main_head_ref (fuel : nat) (rs : RandomSource)
    : option (list MainEvent) :=
  (λ events, SetCommandEcho true :: MainLog "RUNNING MAIN FUNCTION" :: events)
    <$> main_run "GITHUB_HEAD_REF" fuel rs.

End Main.

(** ** Measures used in the statements *)

(** Whether the character occurs in the string. *)
Fixpoint has_char (c : ascii) (s : string) : bool :=
  match s with
  | EmptyString => false
  | String c' rest => Ascii.eqb c' c || has_char c rest
  end.

(** The draw count of a group for an author; [0] when it is falsy. *)
Definition draw_count (author : string) (g : ReviewerGroup) : nat :=
  match usernames g with
  | Some entries =>
      default 0 (reviewersToRequest (strip_handles entries) author
                   (reviewers g) (internal_reviewers g))
  | None => 0
  end.

Definition total_requested (author : string) (gs : list ReviewerGroup) : nat :=
  sum_list (draw_count author <$> gs).

(** Every group has its usernames, and enough distinct ones for its draw
    count next to the author and the [taken] reviewers picked before. *)
Fixpoint provisioned (author : string) (gs : list ReviewerGroup)
    (taken : nat) : Prop :=
  match gs with
  | [] => True
  | g :: rest =>
      match usernames g with
      | Some entries =>
          draw_count author g + taken + 1
            ≤ length (remove_dups (strip_handles entries))
          ∧ provisioned author rest (taken + draw_count author g)
      | None => False
      end
  end.

(** The fetches of the list of pull requests in a trace. *)
Definition is_fetch (ev : Event) : bool :=
  match ev with
  | PullsList _ _ => true
  | _ => false
  end.

Definition fetches (t : list Event) : list Event :=
  filter (λ ev, is_fetch ev = true) t.

(** A method keeps a relation between the store it starts from and the
    store it ends with, whether it returns or throws. *)
Definition keeps (R : Store → Store → Prop) {A} (m : Method A) : Prop :=
  ∀ s, match m s with
       | Normal _ s' | Throw _ s' => R s s'
       | OutOfFuel => True
       end.

(** With a pull request cached, it stays cached and nothing is fetched. *)
Definition quiet (s s' : Store) : Prop :=
  is_Some (pr s) → pr s' = pr s ∧ fetches (trace s') = fetches (trace s).

(** A configuration with a later group that cannot be processed. *)
Definition broken_last_group : Config :=
  {| groups := [group_of ["b:U2"] 1 None; broken_group] |}.

(** Scenario A of the specification. *)
Definition scenario_A : Config :=
  {| groups := [group_of ["a"; "b"; "c"] 2 None] |}.

(** The measure of the sampling loop: how many distinct candidates are
    not among the picks yet. *)
Definition fresh (candidates : list string) (picks : list (option string))
    : nat :=
  size (list_to_set candidates ∖ list_to_set (defined picks) : gset string).

(** * Properties of the sampler *)

Lemma random_index_lt u len : 0 < len → random_index u len < len.
Proof.
  destruct len as [|len]; [lia|]. intros _. unfold random_index.
  apply Nat.mod_upper_bound. lia.
Qed.

Lemma random_index_one u : random_index u 1 = 0.
Proof. unfold random_index. apply Nat.mod_1_r. Qed.

Lemma includes_true {A} `{EqDecision A} (l : list A) x :
  includes l x = true ↔ x ∈ l.
Proof. unfold includes. apply bool_decide_eq_true. Qed.

Lemma includes_false {A} `{EqDecision A} (l : list A) x :
  includes l x = false ↔ x ∉ l.
Proof. unfold includes. apply bool_decide_eq_false. Qed.

Lemma elem_of_eligible items ignore x :
  x ∈ eligible items ignore ↔ x ∈ items ∧ Some x ∉ ignore.
Proof.
  unfold eligible. rewrite list_elem_of_filter, includes_false. tauto.
Qed.

Lemma length_eligible items ignore :
  length (eligible items ignore) ≤ length items.
Proof. apply length_filter. Qed.

(** One iteration of the loop, as an equation. *)
Lemma pick_loop_unfold fuel n candidates picks rs :
  pick_loop fuel n candidates picks rs =
  if bool_decide (length picks < n) then
    match fuel with
    | 0 => None
    | S fuel' =>
        let random := random_index (rs 0) (length candidates) in
        let pick : option string := candidates !! random in
        pick_loop fuel' n (delete random candidates)
          (if includes picks pick then picks else picks ++ [pick])
          (next_draws rs)
    end
  else Some (picks, rs).
Proof. destruct fuel; reflexivity. Qed.

Lemma elem_of_delete_or {A} (l : list A) i x :
  x ∈ l → x ∈ delete i l ∨ l !! i = Some x.
Proof.
  revert i. induction l as [|y l IH]; intros i Hx; [by apply elem_of_nil in Hx|].
  destruct i as [|i]; simpl.
  - apply elem_of_cons in Hx as [->|Hx]; [by right | by left].
  - apply elem_of_cons in Hx as [->|Hx]; [left; apply elem_of_cons; by left|].
    destruct (IH i Hx) as [H|H]; [left; apply elem_of_cons; by right | by right].
Qed.

Lemma elem_of_delete {A} (l : list A) i x : x ∈ delete i l → x ∈ l.
Proof. apply list_elem_of_delete_inv. Qed.

(** What holds of every result of the loop. *)
Lemma pick_loop_sound fuel n candidates picks rs res rs' :
  pick_loop fuel n candidates picks rs = Some (res, rs') →
  ∃ extra, res = picks ++ extra
    ∧ (NoDup picks → NoDup res)
    ∧ (∀ x, Some x ∈ extra → x ∈ candidates)
    ∧ (length picks ≤ n → length res = n)
    ∧ (None ∈ extra → ∀ x, x ∈ candidates → Some x ∈ res).
Proof.
  revert candidates picks rs.
  induction fuel as [|fuel IH]; intros candidates picks rs;
    rewrite pick_loop_unfold; case_bool_decide as Hlt.
  - discriminate.
  - intros [= <- <-]. exists []. rewrite app_nil_r.
    repeat split; try done;
      [by intros x ?%elem_of_nil | lia | by intros ?%elem_of_nil].
  - cbv zeta. set (i := random_index (rs 0) (length candidates)).
    destruct (includes picks (candidates !! i)) eqn:Hinc; intros Hrun;
      apply IH in Hrun as (extra & -> & Hnd & Hsub & Hlen & Hall).
    + apply includes_true in Hinc.
      exists extra. repeat split; try done.
      * intros x Hx. eapply elem_of_delete, Hsub, Hx.
      * intros Hnone x Hx.
        destruct (elem_of_delete_or _ i _ Hx) as [Hd|Hi]; [by apply Hall|].
        rewrite Hi in Hinc. apply elem_of_app. by left.
    + apply includes_false in Hinc.
      exists (candidates !! i :: extra).
      rewrite <- app_assoc in *. simpl in *. repeat split; try done.
      * intros Hp. apply Hnd. apply NoDup_app. repeat split; try done.
        -- intros x Hx ->%list_elem_of_singleton. done.
        -- apply NoDup_singleton.
      * intros x [Hx|Hx]%elem_of_cons.
        -- eapply list_elem_of_lookup_2. symmetry. exact Hx.
        -- eapply elem_of_delete, Hsub, Hx.
      * intros _. apply Hlen. rewrite length_app. simpl. lia.
      * intros [Hnone|Hnone]%elem_of_cons x Hx.
        -- symmetry in Hnone. apply lookup_ge_None in Hnone.
           destruct candidates as [|c cs]; [by apply elem_of_nil in Hx|].
           pose proof (random_index_lt (rs 0) (length (c :: cs))) as Hi.
           fold i in Hi. simpl in *. lia.
        -- destruct (elem_of_delete_or _ i _ Hx) as [Hd|Hi]; [by apply Hall|].
           rewrite Hi. apply elem_of_app. right. apply elem_of_cons. by left.
  - intros [= <- <-]. exists []. rewrite app_nil_r.
    repeat split; try done;
      [by intros x ?%elem_of_nil | lia | by intros ?%elem_of_nil].
Qed.

(** More fuel does not change a result. *)
Lemma pick_loop_mono fuel fuel' n candidates picks rs r :
  fuel ≤ fuel' →
  pick_loop fuel n candidates picks rs = Some r →
  pick_loop fuel' n candidates picks rs = Some r.
Proof.
  revert fuel' candidates picks rs.
  induction fuel as [|fuel IH]; intros fuel' candidates picks rs Hle;
    rewrite !(pick_loop_unfold _ n candidates picks rs);
    case_bool_decide; try done.
  destruct fuel' as [|fuel']; [lia|]. cbv zeta. apply IH. lia.
Qed.

Lemma elem_of_defined picks x : x ∈ defined picks ↔ Some x ∈ picks.
Proof.
  unfold defined. rewrite list_elem_of_omap. split.
  - by intros ([y|] & Hy & [= ->]).
  - intros Hx. by exists (Some x).
Qed.

Lemma defined_snoc picks x : defined (picks ++ [Some x]) = defined picks ++ [x].
Proof. unfold defined. by rewrite omap_app. Qed.

Lemma defined_snoc_None picks : defined (picks ++ [None]) = defined picks.
Proof. unfold defined. rewrite omap_app. simpl. by rewrite app_nil_r. Qed.

Lemma length_defined_le picks : length (defined picks) ≤ length picks.
Proof. induction picks as [|[x|] picks IH]; simpl; lia. Qed.

Lemma length_defined_None picks :
  None ∈ picks → length (defined picks) < length picks.
Proof.
  induction picks as [|[x|] picks IH]; simpl.
  - by intros ?%elem_of_nil.
  - intros [?|H]%elem_of_cons; [done|]. apply IH in H. lia.
  - intros _. pose proof (length_defined_le picks). unfold defined in *. lia.
Qed.

Lemma length_defined_all picks :
  None ∉ picks → length (defined picks) = length picks.
Proof.
  induction picks as [|[x|] picks IH]; simpl; intros Hn; [done| |].
  - f_equal. apply IH. intros H. apply Hn, elem_of_cons. by right.
  - exfalso. apply Hn, elem_of_cons. by left.
Qed.

Lemma NoDup_defined picks : NoDup picks → NoDup (defined picks).
Proof.
  induction 1 as [|[x|] picks Hx Hnd IH]; simpl; [constructor| |done].
  constructor; [|done]. by rewrite elem_of_defined.
Qed.

Lemma NoDup_length_le (l k : list string) :
  NoDup l → (∀ x, x ∈ l → x ∈ k) → length l ≤ length (remove_dups k).
Proof.
  intros Hnd Hsub. apply submseteq_length, NoDup_submseteq; [done|].
  intros x Hx. rewrite elem_of_remove_dups. by apply Hsub.
Qed.

Lemma size_list_to_set_remove_dups (l : list string) :
  size (list_to_set l : gset string) = length (remove_dups l).
Proof.
  rewrite <- (size_list_to_set (C := gset string) (remove_dups l))
    by apply NoDup_remove_dups.
  f_equal. apply set_eq. intros x.
  by rewrite !elem_of_list_to_set, elem_of_remove_dups.
Qed.

Lemma fresh_nil_picks candidates :
  fresh candidates [] = length (remove_dups candidates).
Proof.
  unfold fresh. simpl. rewrite difference_empty_L.
  apply size_list_to_set_remove_dups.
Qed.

Lemma fresh_nil picks : fresh [] picks = 0.
Proof.
  unfold fresh. apply size_empty_iff. intros x.
  rewrite elem_of_difference, elem_of_list_to_set. split.
  - intros [Hx _]. by apply elem_of_nil in Hx.
  - by intros ?%elem_of_empty.
Qed.

(** Taking out a candidate that is already picked leaves the measure. *)
Lemma fresh_delete_old candidates picks i x :
  candidates !! i = Some x → Some x ∈ picks →
  fresh candidates picks ≤ fresh (delete i candidates) picks.
Proof.
  intros Hi Hx. unfold fresh. apply subseteq_size. intros y.
  rewrite !elem_of_difference, !elem_of_list_to_set.
  intros [Hy Hny]. split; [|done].
  destruct (elem_of_delete_or _ i _ Hy) as [?|Hi']; [done|].
  rewrite Hi in Hi'. injection Hi' as ->. by apply elem_of_defined in Hx.
Qed.

(** Picking a new candidate lowers the measure by one at most. *)
Lemma fresh_delete_new candidates picks i x :
  candidates !! i = Some x →
  fresh candidates picks ≤ fresh (delete i candidates) (picks ++ [Some x]) + 1.
Proof.
  intros Hi. unfold fresh. rewrite defined_snoc.
  set (D := list_to_set (delete i candidates) ∖
            list_to_set (defined picks ++ [x]) : gset string).
  transitivity (size (D ∪ {[x]})).
  - apply subseteq_size. intros y. subst D.
    rewrite elem_of_union, !elem_of_difference, !elem_of_list_to_set,
      elem_of_app, list_elem_of_singleton, elem_of_singleton.
    intros [Hy Hny]. destruct (decide (y = x)) as [->|Hne]; [by right|left].
    split; [|tauto].
    destruct (elem_of_delete_or _ i _ Hy) as [?|Hi']; [done|]. congruence.
  - rewrite size_union_alt.
    assert (size ({[x]} ∖ D : gset string) ≤ size ({[x]} : gset string))
      by (apply subseteq_size; intros y [Hy _]%elem_of_difference; done).
    rewrite size_singleton in *. lia.
Qed.

(** The loop leaves when at most one pick more than the distinct new
    candidates is asked for and [undefined] is not picked yet. *)
Lemma pick_loop_terminates fuel n candidates picks rs :
  length candidates < fuel →
  n ≤ length picks + fresh candidates picks
        + (if includes picks None then 0 else 1) →
  is_Some (pick_loop fuel n candidates picks rs).
Proof.
  revert candidates picks rs.
  induction fuel as [|fuel IH]; intros candidates picks rs Hfuel Hn; [lia|].
  rewrite pick_loop_unfold. case_bool_decide as Hlt; [|by eexists].
  cbv zeta. set (i := random_index (rs 0) (length candidates)).
  destruct candidates as [|c cs].
  - rewrite fresh_nil in Hn. simpl.
    destruct (includes picks None) eqn:Hinc; [lia|].
    rewrite pick_loop_unfold. rewrite bool_decide_eq_false_2; [by eexists|].
    rewrite length_app. simpl. lia.
  - assert (i < length (c :: cs)) as Hi by (apply random_index_lt; simpl; lia).
    destruct (lookup_lt_is_Some_2 _ _ Hi) as [x Hx]. rewrite Hx.
    assert (length (delete i (c :: cs)) < fuel) as Hfuel'.
    { rewrite length_delete by eauto. simpl in *. lia. }
    destruct (includes picks (Some x)) eqn:Hinc; apply IH; try done.
    + apply includes_true in Hinc.
      pose proof (fresh_delete_old _ _ _ _ Hx Hinc). lia.
    + pose proof (fresh_delete_new _ picks _ _ Hx).
      assert (includes (picks ++ [Some x]) None = includes picks None) as ->.
      { unfold includes. apply bool_decide_ext.
        rewrite elem_of_app, list_elem_of_singleton.
        split; [intros [?|?]; [done|discriminate] | by left]. }
      rewrite length_app. simpl. lia.
Qed.

(** What holds of every result of [pickRandom]. *)
Lemma pickRandom_sound fuel items n ignore rs picks rs' :
  pickRandom fuel items n ignore rs = Some (picks, rs') →
  length picks = n
  ∧ NoDup picks
  ∧ length (defined picks) = n `min` pool_size items ignore
  ∧ (∀ x, Some x ∈ picks → x ∈ items ∧ Some x ∉ ignore).
Proof.
  unfold pickRandom. intros Hrun.
  apply pick_loop_sound in Hrun as (extra & -> & Hnd & Hsub & Hlen & Hall).
  simpl in *. specialize (Hnd (NoDup_nil_2)). specialize (Hlen (Nat.le_0_l _)).
  assert (∀ x, Some x ∈ extra → x ∈ eligible items ignore) as Hin by done.
  assert (length (defined extra) ≤ pool_size items ignore) as Hle.
  { apply NoDup_length_le; [by apply NoDup_defined|].
    intros x Hx. by apply Hin, elem_of_defined. }
  split; [done|]. split; [done|]. split.
  - destruct (decide (None ∈ extra)) as [Hnone|Hnone].
    + pose proof (length_defined_None _ Hnone).
      assert (pool_size items ignore ≤ length (defined extra)).
      { unfold pool_size. apply submseteq_length, NoDup_submseteq;
          [apply NoDup_remove_dups|].
        intros x Hx. rewrite elem_of_remove_dups in Hx.
        apply elem_of_defined. by apply Hall. }
      lia.
    + pose proof (length_defined_all _ Hnone). lia.
  - intros x Hx. by apply elem_of_eligible, Hin.
Qed.

(** [pickRandom] returns when at most one pick more than the pool holds is
    asked for, within one iteration more than there are items. *)
Lemma pickRandom_terminates items n ignore rs :
  n ≤ pool_size items ignore + 1 →
  ∃ r, ∀ fuel, length items < fuel →
    pickRandom fuel items n ignore rs = Some r.
Proof.
  intros Hn. unfold pickRandom.
  destruct (pick_loop_terminates (S (length (eligible items ignore))) n
              (eligible items ignore) [] rs) as [r Hr]; [lia| |].
  - rewrite fresh_nil_picks. simpl. unfold pool_size in Hn. lia.
  - exists r. intros fuel Hfuel. eapply pick_loop_mono; [|exact Hr].
    pose proof (length_eligible items ignore). lia.
Qed.

(** [pickRandom] never returns when two picks or more than the pool holds
    are asked for. *)
Lemma pickRandom_diverges items n ignore rs :
  pool_size items ignore + 2 ≤ n →
  ∀ fuel, pickRandom fuel items n ignore rs = None.
Proof.
  intros Hn fuel.
  destruct (pickRandom fuel items n ignore rs) as [[picks rs']|] eqn:Hrun;
    [|done].
  apply pickRandom_sound in Hrun as (Hlen & Hnd & Hdef & _).
  destruct (decide (None ∈ picks)) as [Hnone|Hnone].
  - assert (length picks ≤ length (defined picks) + 1); [|lia].
    clear -Hnd Hnone. induction Hnd as [|[x|] picks Hx Hnd IH]; simpl.
    + by apply elem_of_nil in Hnone.
    + apply elem_of_cons in Hnone as [?|Hnone]; [done|].
      specialize (IH Hnone). unfold defined in *. lia.
    + rewrite (length_defined_all picks Hx). lia.
  - pose proof (length_defined_all _ Hnone). lia.
Qed.

(** What [pickRandom] returns where it returns. When at most one pick more
    than the pool holds is asked for, [pickRandom] returns, and the same
    result whatever the fuel above the number of items: exactly [n]
    pairwise distinct entries, of which [min n (pool size)] are usernames,
    each drawn from [items] and none in [ignore]; when [n] is within the
    pool no entry is [undefined]. *)
Theorem pickRandom_result items n ignore rs :
  n ≤ pool_size items ignore + 1 →
  ∃ picks rs',
    (∀ fuel, length items < fuel →
       pickRandom fuel items n ignore rs = Some (picks, rs'))
    ∧ length picks = n
    ∧ NoDup picks
    ∧ length (defined picks) = n `min` pool_size items ignore
    ∧ (∀ x, Some x ∈ picks → x ∈ items ∧ Some x ∉ ignore)
    ∧ (n ≤ pool_size items ignore → None ∉ picks).
Proof.
  intros Hn. destruct (pickRandom_terminates items n ignore rs Hn)
    as [[picks rs'] Hrun].
  exists picks, rs'. split; [done|].
  destruct (pickRandom_sound _ _ _ _ _ _ _ (Hrun _ (Nat.lt_succ_diag_r _)))
    as (Hlen & Hnd & Hdef & Hin).
  repeat split; try done; try (by apply Hin).
  intros Hle Hnone. apply length_defined_None in Hnone. lia.
Qed.

Lemma pickRandom_result_witness :
  2 ≤ pool_size ["a"; "b"; "c"] [Some "a"] + 1 ∧
  ∃ picks rs',
    (∀ fuel, length ["a"; "b"; "c"] < fuel →
       pickRandom fuel ["a"; "b"; "c"] 2 [Some "a"] (λ _, 0)
       = Some (picks, rs'))
    ∧ length picks = 2
    ∧ NoDup picks
    ∧ length (defined picks) = 2 `min` pool_size ["a"; "b"; "c"] [Some "a"]
    ∧ (∀ x, Some x ∈ picks → x ∈ ["a"; "b"; "c"] ∧ Some x ∉ [Some "a"])
    ∧ (2 ≤ pool_size ["a"; "b"; "c"] [Some "a"] → None ∉ picks).
Proof.
  split; [vm_compute; lia|].
  apply (pickRandom_result ["a"; "b"; "c"] 2 [Some "a"] (λ _, 0)).
  vm_compute. lia.
Defined.

(** C1, the code at the failing input. Asked for two picks from the single
    item ["b"], [pickRandom] returns ["b"] and [undefined]: two entries
    where the pool holds one, the second not drawn from [items]. The loop
    has no exit for an empty candidate list. *)
Lemma pickRandom_pads_with_undefined :
  ∃ picks rs',
    pickRandom 3 ["b"] 2 [] (λ _, 0) = Some (picks, rs')
    ∧ length picks ≠ 2 `min` pool_size ["b"] []
    ∧ picks = [Some "b"; None].
Proof.
  eexists _, _. split; [vm_compute; reflexivity|].
  split; [vm_compute; lia | reflexivity].
Qed.

(** C2, the code at the failing input. Asked for three picks from the
    items ["a"], ["b"] with ["a"] ignored, the loop of [pickRandom] is
    still running after any number of iterations, whatever the draws. *)
Theorem pickRandom_loops_forever :
  ∀ fuel rs, pickRandom fuel ["a"; "b"] 3 [Some "a"] rs = None.
Proof.
  intros fuel rs. apply pickRandom_diverges. vm_compute. lia.
Qed.

(** * Properties of the methods *)

Lemma bind_normal {A B} (m : Method A) (k : A → Method B) s b s' :
  (m ≫= k) s = Normal b s' ↔ ∃ a s1, m s = Normal a s1 ∧ k a s1 = Normal b s'.
Proof.
  unfold mbind, Method_bind. split.
  - destruct (m s) as [a s1| |]; try done. eauto.
  - by intros (a & s1 & -> & ?).
Qed.

Lemma bind_run {A B} (m : Method A) (k : A → Method B) s a s1 :
  m s = Normal a s1 → (m ≫= k) s = k a s1.
Proof. unfold mbind, Method_bind. by intros ->. Qed.

Lemma try_catch_normal {A} (body : Method A) handler s a s1 :
  body s = Normal a s1 → try_catch body handler s = Normal a s1.
Proof. unfold try_catch. by intros ->. Qed.

Lemma call_pickRandom_normal fuel items n ignore s picks s1 :
  call_pickRandom fuel items n ignore s = Normal picks s1 ↔
  ∃ rs', pickRandom fuel items n ignore (random s) = Some (picks, rs')
         ∧ s1 = {| pr := pr s; random := rs'; trace := trace s |}.
Proof.
  unfold call_pickRandom. split.
  - destruct (pickRandom _ _ _ _ _) as [[picks' rs']|]; [|done].
    intros [= -> <-]. eauto.
  - by intros (rs' & -> & ->).
Qed.

Section LotteryFacts.
Context (config : Config) (env : Env) (octokit : Octokit).

Local Abbreviation getPR := (getPR env octokit).
Local Abbreviation isReadyToReview := (isReadyToReview env octokit).
Local Abbreviation getPRAuthor := (getPRAuthor env octokit).
Local Abbreviation selectReviewers := (selectReviewers config env octokit).
Local Abbreviation run := (run config env octokit).

(** With a pull request cached, [getPR] gives it back and does nothing
    else. *)
Lemma getPR_cached s p : pr s = Some p → getPR s = Normal (Some p) s.
Proof. intros H. unfold getPR, mbind, Method_bind, get_pr. by rewrite H. Qed.

(** [getPR] always returns; what it returns is what it leaves cached; it
    draws nothing and calls neither the reviewer API nor Slack. *)
Lemma getPR_normal s :
  ∃ v s1, getPR s = Normal v s1
    ∧ pr s1 = v
    ∧ random s1 = random s
    ∧ calls (trace s1) = calls (trace s).
Proof.
  destruct (pr s) as [p|] eqn:Hpr.
  { exists (Some p), s. by rewrite (getPR_cached s p Hpr). }
  unfold getPR, mbind, Method_bind, get_pr. rewrite Hpr.
  unfold try_catch, octokit_pulls_list, mbind, Method_bind, emit, throw,
    set_pr, core_error, core_setFailed, emit, mret, Method_ret. simpl.
  destruct (pulls_list octokit) as [e|data]; simpl.
  - eexists _, _. split; [done|]. simpl. repeat split; [done|].
    unfold calls. by rewrite <- !app_assoc, !filter_app, !app_nil_r.
  - destruct (List.find _ data) as [d|]; simpl.
    + eexists _, _. split; [done|]. simpl. repeat split.
      unfold calls. by rewrite !filter_app, !app_nil_r.
    + eexists _, _. split; [done|]. simpl. repeat split.
      unfold calls. by rewrite <- !app_assoc, !filter_app, !app_nil_r.
Qed.

Lemma isReadyToReview_getPR s v s1 :
  getPR s = Normal v s1 →
  isReadyToReview s =
    Normal (match v with
            | Some p => negb (default false (draft p))
            | None => false
            end) s1.
Proof.
  intros H. unfold isReadyToReview. apply try_catch_normal.
  by rewrite (bind_run _ _ _ _ _ H).
Qed.

Lemma getPRAuthor_getPR s v s1 :
  getPR s = Normal v s1 →
  getPRAuthor s =
    Normal (match v with
            | Some p => default "" (user p)
            | None => ""
            end) s1.
Proof.
  intros H. unfold getPRAuthor. apply try_catch_normal.
  by rewrite (bind_run _ _ _ _ _ H).
Qed.

Lemma defined_app l k : defined (l ++ k) = defined l ++ defined k.
Proof. unfold defined. apply omap_app. Qed.

(** The loop over the groups keeps the usernames selected so far
    pairwise distinct and never selects the author; it only touches the
    random source. *)
Lemma select_groups_inv fuel author gs :
  ∀ selected s res thrown s',
    select_groups fuel author gs selected s = Normal (res, thrown) s' →
    (NoDup (defined selected) → Some author ∉ selected →
       NoDup (defined res) ∧ Some author ∉ res)
    ∧ pr s' = pr s ∧ trace s' = trace s.
Proof.
  induction gs as [|g gs IH]; intros selected s res thrown s'; simpl.
  { by intros [= <- <- <-]. }
  destruct (usernames g) as [entries|]; [|by intros [= <- <- <-]].
  destruct (reviewersToRequest _ _ _ _) as [[|k]|]; try apply IH.
  intros (picks & s1 & Hpick & Hrest)%bind_normal.
  apply call_pickRandom_normal in Hpick as (rs' & Hpick & ->).
  apply pickRandom_sound in Hpick as (_ & Hnd & _ & Hin).
  apply IH in Hrest as (Hinv & Hpr & Htr). split; [|done].
  intros Hsel Hauthor. apply Hinv.
  - rewrite defined_app. apply NoDup_app. repeat split; try done.
    + intros x Hx%elem_of_defined Hx'%elem_of_defined.
      apply Hin in Hx' as [_ Hx']. apply Hx', elem_of_app. by left.
    + by apply NoDup_defined.
  - intros [?|Hp]%elem_of_app; [done|].
    apply Hin in Hp as [_ Hp]. apply Hp, elem_of_app. right.
    by apply list_elem_of_singleton.
Qed.

(** The loop over [pre ++ rest] is the loop over [pre] and, when that
    one completes without an error, the loop over [rest]. *)
Lemma select_groups_app fuel author pre rest :
  ∀ selected s,
    select_groups fuel author (pre ++ rest) selected s =
    match select_groups fuel author pre selected s with
    | Normal (acc, None) s1 => select_groups fuel author rest acc s1
    | c => c
    end.
Proof.
  induction pre as [|g pre IH]; intros selected s; simpl; [done|].
  destruct (usernames g) as [entries|]; [|done].
  destruct (reviewersToRequest _ _ _ _) as [[|k]|]; try apply IH.
  unfold mbind, Method_bind.
  destruct (call_pickRandom _ _ _ _ _) as [picks s1| |]; [apply IH|done..].
Qed.

(** What [selectReviewers] returns is what the loop over the groups
    leaves in [selected]. *)
Lemma selectReviewers_normal fuel s res s' :
  selectReviewers fuel s = Normal res s' →
  ∃ author s0 thrown s1,
    getPRAuthor s = Normal author s0
    ∧ select_groups fuel author (groups config) [] s0
      = Normal (res, thrown) s1
    ∧ pr s' = pr s1 ∧ random s' = random s1
    ∧ calls (trace s') = calls (trace s1).
Proof.
  unfold selectReviewers.
  intros (author & s0 & Hauthor & H)%bind_normal.
  apply bind_normal in H as ([selected thrown] & s1 & Hloop & H).
  apply bind_normal in H as ([] & s2 & Hlog & [= <- <-]).
  exists author, s0, thrown, s1. split; [done|]. split; [done|].
  destruct thrown as [e|].
  - unfold mbind, Method_bind, core_error, core_setFailed, emit in Hlog.
    injection Hlog as <-. simpl. repeat split. unfold calls.
    by rewrite <- !app_assoc, !filter_app, !app_nil_r.
  - by injection Hlog as <-.
Qed.

(** C5. Whenever [selectReviewers] returns, the author's username, as
    [getPRAuthor] gives it, is not in the returned list. *)
Theorem selectReviewers_excludes_author fuel s author s0 res s' :
  getPRAuthor s = Normal author s0 →
  selectReviewers fuel s = Normal res s' →
  Some author ∉ res.
Proof.
  intros Hauthor (author' & s0' & thrown & s1 & Hauthor' & Hloop & _)
    %selectReviewers_normal.
  rewrite Hauthor in Hauthor'. injection Hauthor' as <- <-.
  apply select_groups_inv in Hloop as [Hinv _].
  apply Hinv; [constructor | by intros ?%elem_of_nil].
Qed.

(** Whenever [selectReviewers] returns, the usernames in the returned
    list are pairwise distinct, and the reviewer request that
    [setReviewers] makes for the list names no reviewer twice. *)
Theorem selectReviewers_usernames_distinct fuel s res s' :
  selectReviewers fuel s = Normal res s' →
  NoDup (defined res)
  ∧ ∀ s2, ∃ requested,
      setReviewers env octokit res s2 =
        (match pulls_requestReviewers octokit with
         | Some e => Throw e
         | None => Normal tt
         end)
          {| pr := pr s2; random := random s2;
             trace := trace s2 ++
               [RequestReviewers (getOwnerAndRepo env).1 (getOwnerAndRepo env).2
                  (number <$> pr s2) requested] |}
      ∧ NoDup requested.
Proof.
  intros (author & s0 & thrown & s1 & _ & Hloop & _)%selectReviewers_normal.
  apply select_groups_inv in Hloop as [Hinv _].
  destruct Hinv as [Hnd _]; [constructor | by intros ?%elem_of_nil |].
  split; [done|].
  assert (NoDup (filter (λ r, truthy_string r = true) res)) as Hreq.
  { clear -Hnd. induction res as [|[x|] res IH]; simpl in *.
    - constructor.
    - apply NoDup_cons in Hnd as [Hx Hnd]. rewrite filter_cons.
      case_decide; [|by apply IH]. constructor; [|by apply IH].
      intros [_ Hin]%list_elem_of_filter. by apply Hx, elem_of_defined.
    - rewrite filter_cons_False by done. by apply IH. }
  intros s2. exists (filter (λ r, truthy_string r = true) res).
  split; [|done].
  unfold setReviewers, getPRNumber, octokit_pulls_requestReviewers, mbind,
    Method_bind, get_pr, emit, throw, mret, Method_ret. simpl.
  by destruct (pulls_requestReviewers octokit).
Qed.

(** C7. When the groups before [g] are processed without an error and
    processing [g] throws, [selectReviewers] returns normally, with
    exactly the reviewers picked from the groups before [g]; the groups
    after [g] are not processed, and the error is reported once. *)
Theorem selectReviewers_partial fuel s author s0 pre g post acc s1 :
  groups config = pre ++ g :: post →
  getPRAuthor s = Normal author s0 →
  select_groups fuel author pre [] s0 = Normal (acc, None) s1 →
  usernames g = None →
  selectReviewers fuel s =
    Normal acc {| pr := pr s1; random := random s1;
                  trace := trace s1 ++ [CoreError map_of_undefined;
                                        CoreSetFailed map_of_undefined] |}.
Proof.
  intros Hgroups Hauthor Hpre Hg.
  unfold selectReviewers. rewrite (bind_run _ _ _ _ _ Hauthor).
  rewrite Hgroups.
  assert (select_groups fuel author (pre ++ g :: post) [] s0
          = Normal (acc, Some map_of_undefined) s1) as Hloop.
  { rewrite select_groups_app, Hpre. simpl. by rewrite Hg. }
  rewrite (bind_run _ _ _ _ _ Hloop).
  unfold mbind, Method_bind, core_error, core_setFailed, emit, mret,
    Method_ret. simpl. by rewrite <- app_assoc.
Qed.

(** C9. Once a call of [isReadyToReview] has returned and left a pull
    request cached, a second call returns the same boolean and leaves
    the store as it is: nothing is fetched, nothing is logged. *)
Theorem isReadyToReview_twice s b s1 :
  isReadyToReview s = Normal b s1 →
  is_Some (pr s1) →
  isReadyToReview s1 = Normal b s1.
Proof.
  intros Hfirst [p Hp].
  destruct (getPR_normal s) as (v & s1' & Hget & Hpr & _).
  rewrite (isReadyToReview_getPR _ _ _ Hget) in Hfirst.
  injection Hfirst as <- <-. rewrite Hp in Hpr. subst v.
  by rewrite (isReadyToReview_getPR s1' _ _ (getPR_cached s1' p Hp)).
Qed.

End LotteryFacts.

(** C4 (as amended). For a group with entries and an author: the draw
    count is [internal_reviewers] when the author is in the pool of the
    stripped usernames and [internal_reviewers] is a non-zero count, and
    [reviewers] otherwise; when the draw count is zero or absent the
    group adds no pick, throws nothing and draws nothing. *)
Theorem group_policy fuel author g entries rest selected s :
  usernames g = Some entries →
  let pool := strip_handles entries in
  let count :=
    reviewersToRequest pool author (reviewers g) (internal_reviewers g) in
  (author ∈ pool ∧ truthy_number (internal_reviewers g) = true →
     count = internal_reviewers g)
  ∧ (¬ (author ∈ pool ∧ truthy_number (internal_reviewers g) = true) →
     count = reviewers g)
  ∧ (truthy_number count = false →
     select_groups fuel author [g] selected s = Normal (selected, None) s
     ∧ select_groups fuel author (g :: rest) selected s
       = select_groups fuel author rest selected s).
Proof.
  intros Hg pool count. subst count. unfold reviewersToRequest.
  split; [|split].
  - intros [Hin Hint]. apply includes_true in Hin. by rewrite Hin, Hint.
  - intros Hnot. destruct (includes pool author) eqn:Hin; [|done].
    apply includes_true in Hin.
    destruct (truthy_number (internal_reviewers g)) eqn:Hint; [|done].
    exfalso. by apply Hnot.
  - intros Hcount. simpl. rewrite Hg. fold pool.
    unfold reviewersToRequest.
    destruct (if includes pool author && truthy_number (internal_reviewers g)
              then internal_reviewers g else reviewers g) as [[|k]|];
      done.
Qed.

Lemma group_policy_witness :
  let g := group_of ["a:U1"; "b"] 0 (Some 1) in
  let s := cached_store (pull_by "c" None) in
  reviewersToRequest (strip_handles ["a:U1"; "b"]) "c" (Some 0) (Some 1)
    = Some 0
  ∧ select_groups 0 "c" [g] [] s = Normal ([], None) s.
Proof.
  intros g s.
  destruct (group_policy 0 "c" g ["a:U1"; "b"] [] [] s eq_refl)
    as (_ & Hcount & Hskip).
  split.
  - apply Hcount. intros [Hin _]. apply includes_true in Hin.
    vm_compute in Hin. discriminate Hin.
  - apply Hskip. reflexivity.
Defined.

(** C4, counterexample. With the author in the pool and
    [internal_reviewers: 0] defined, the draw count is [reviewers], not
    [internal_reviewers], and the group contributes a pick. *)
Lemma zero_internal_reviewers_ignored :
  let g := group_of ["a"; "b"] 1 (Some 0) in
  "a" ∈ strip_handles ["a"; "b"]
  ∧ internal_reviewers g = Some 0
  ∧ reviewersToRequest (strip_handles ["a"; "b"]) "a"
      (reviewers g) (internal_reviewers g) = Some 1
  ∧ select_groups 1 "a" [g] [] (cached_store (pull_by "a" None))
    = Normal ([Some "b"], None)
        {| pr := Some (pull_by "a" None); random := next_draws (λ _, 0);
           trace := [] |}.
Proof.
  intros g. split; [by apply includes_true|].
  split; [reflexivity|]. split; [reflexivity|]. vm_compute. reflexivity.
Qed.

(** The draw of scenario B: two picks asked for, one candidate. *)
Lemma pickRandom_scenario_B fuel rs :
  2 ≤ fuel →
  pickRandom fuel ["a"; "b"] 2 [Some "a"] rs
  = Some ([Some "b"; None], next_draws (next_draws rs)).
Proof.
  intros Hfuel. destruct fuel as [|[|fuel]]; [lia..|].
  unfold pickRandom. change (eligible ["a"; "b"] [Some "a"]) with ["b"].
  rewrite pick_loop_unfold. cbv zeta.
  change (length ["b"]) with 1. rewrite random_index_one.
  change (pick_loop (S fuel) 2 [] [Some "b"] (next_draws rs)
          = Some ([Some "b"; None], next_draws (next_draws rs))).
  rewrite pick_loop_unfold. cbv zeta.
  change (pick_loop fuel 2 [] [Some "b"; None] (next_draws (next_draws rs))
          = Some ([Some "b"; None], next_draws (next_draws rs))).
  by rewrite pick_loop_unfold.
Qed.

(** Scenario B for any lottery whose author is ["a"]: the draw count is
    [2], the pool without the author is ["b"], and [selectReviewers]
    returns ["b"] followed by [undefined], whatever the draws. *)
Lemma scenario_B_result env octokit fuel s s0 :
  2 ≤ fuel →
  getPRAuthor env octokit s = Normal "a" s0 →
  reviewersToRequest (strip_handles ["a"; "b"]) "a" (Some 1) (Some 2) = Some 2
  ∧ eligible (strip_handles ["a"; "b"]) [Some "a"] = ["b"]
  ∧ selectReviewers scenario_B env octokit fuel s
    = Normal [Some "b"; None]
        {| pr := pr s0; random := next_draws (next_draws (random s0));
           trace := trace s0 |}.
Proof.
  intros Hfuel Hauthor. split; [reflexivity|]. split; [reflexivity|].
  unfold selectReviewers. rewrite (bind_run _ _ _ _ _ Hauthor).
  assert (select_groups fuel "a" (groups scenario_B) [] s0
          = Normal ([Some "b"; None], None)
              {| pr := pr s0; random := next_draws (next_draws (random s0));
                 trace := trace s0 |}) as Hloop.
  { change ((call_pickRandom fuel ["a"; "b"] 2 [Some "a"] ≫=
               (λ picks, mret (picks, None : option JsError))) s0
            = Normal ([Some "b"; None], None)
              {| pr := pr s0; random := next_draws (next_draws (random s0));
                 trace := trace s0 |}).
    unfold mbind, Method_bind, call_pickRandom.
    by rewrite (pickRandom_scenario_B fuel (random s0) Hfuel). }
  by rewrite (bind_run _ _ _ _ _ Hloop).
Qed.

(** C3, the code at the failing input. In scenario B, for a pull request
    by ["a"], the draw count is [2] and the pool without the author is
    ["b"], as the claim says; but the list that [selectReviewers] returns
    is ["b"] followed by [undefined], two entries and not one, whatever
    the draws and however long the loop may run. The second entry is the
    [undefined] that the loop of [pickRandom] pushes from the empty
    candidate list. *)
Theorem scenario_B_returns_two_entries :
  ∀ fuel rs,
    reviewersToRequest (strip_handles ["a"; "b"]) "a" (Some 1) (Some 2)
      = Some 2
    ∧ eligible (strip_handles ["a"; "b"]) [Some "a"] = ["b"]
    ∧ selectReviewers scenario_B example_env
        (octokit_with (pull_by "a" None)) (S (S fuel)) (new_store rs)
      = Normal [Some "b"; None]
          {| pr := Some (pull_by "a" None);
             random := next_draws (next_draws rs);
             trace := [PullsList "octo" (Some "repo")] |}.
Proof.
  intros fuel rs.
  apply (scenario_B_result example_env (octokit_with (pull_by "a" None))
           (S (S fuel)) (new_store rs)
           {| pr := Some (pull_by "a" None); random := rs;
              trace := [PullsList "octo" (Some "repo")] |});
    [lia | reflexivity].
Qed.

Lemma selectReviewers_excludes_author_witness :
  let s := cached_store (pull_by "a" None) in
  let s' := {| pr := pr s; random := next_draws (next_draws (random s));
               trace := trace s |} in
  selectReviewers scenario_B example_env (octokit_with (pull_by "a" None)) 2 s
    = Normal [Some "b"; None] s'
  ∧ Some "a" ∉ [Some "b"; None].
Proof.
  intros s s'.
  assert (selectReviewers scenario_B example_env
            (octokit_with (pull_by "a" None)) 2 s
          = Normal [Some "b"; None] s') as Hrun by (vm_compute; reflexivity).
  split; [exact Hrun|].
  exact (selectReviewers_excludes_author scenario_B example_env
           (octokit_with (pull_by "a" None)) 2 s "a" s [Some "b"; None] s'
           eq_refl Hrun).
Defined.

Lemma selectReviewers_usernames_distinct_witness :
  let s := cached_store (pull_by "a" None) in
  let s' := {| pr := pr s; random := next_draws (next_draws (random s));
               trace := trace s |} in
  selectReviewers scenario_D example_env (octokit_with (pull_by "a" None)) 1 s
    = Normal [Some "b"; Some "d"] s'
  ∧ NoDup (defined [Some "b"; Some "d"])
  ∧ ∃ requested,
      setReviewers example_env (octokit_with (pull_by "a" None))
        [Some "b"; Some "d"] s' =
        Normal tt
          {| pr := pr s'; random := random s';
             trace := trace s' ++
               [RequestReviewers "octo" (Some "repo") (Some 7) requested] |}
      ∧ NoDup requested.
Proof.
  intros s s'.
  assert (selectReviewers scenario_D example_env
            (octokit_with (pull_by "a" None)) 1 s
          = Normal [Some "b"; Some "d"] s') as Hrun
    by (vm_compute; reflexivity).
  split; [exact Hrun|].
  destruct (selectReviewers_usernames_distinct scenario_D example_env
              (octokit_with (pull_by "a" None)) 1 s _ _ Hrun) as [Hnd Hreq].
  split; [exact Hnd|]. exact (Hreq s').
Defined.

(** C6, the code at the failing input. With two groups whose only member
    is the author, [selectReviewers] returns [undefined] twice: the
    returned list has a duplicate entry. Each group adds the [undefined]
    that the loop of [pickRandom] pushes from its empty candidate list. *)
Lemma selectReviewers_repeats_undefined :
  ∃ res s',
    selectReviewers two_exhausted_groups example_env
      (octokit_with (pull_by "a" None)) 1 (new_store (λ _, 0))
    = Normal res s'
    ∧ res = [None; None]
    ∧ ¬ NoDup res.
Proof.
  eexists [None; None], _. split; [vm_compute; reflexivity|].
  split; [reflexivity|].
  intros [Hnot _]%NoDup_cons. apply Hnot, elem_of_cons. by left.
Qed.

Lemma selectReviewers_partial_witness :
  let s := cached_store (pull_by "a" None) in
  selectReviewers broken_second_group example_env
    (octokit_with (pull_by "a" None)) 1 s
  = Normal [Some "b"]
      {| pr := pr s; random := next_draws (random s);
         trace := [CoreError map_of_undefined;
                   CoreSetFailed map_of_undefined] |}.
Proof.
  intros s.
  apply (selectReviewers_partial broken_second_group example_env
           (octokit_with (pull_by "a" None)) 1 s "a" s
           [group_of ["b"] 1 None] broken_group [group_of ["c"] 1 None]
           [Some "b"]
           {| pr := pr s; random := next_draws (random s); trace := [] |}
           eq_refl eq_refl).
  - vm_compute. reflexivity.
  - reflexivity.
Defined.

Lemma isReadyToReview_twice_witness :
  let s1 := {| pr := Some (pull_by "a" None); random := λ _, 0;
               trace := [PullsList "octo" (Some "repo")] |} in
  isReadyToReview example_env (octokit_with (pull_by "a" None))
    (new_store (λ _, 0)) = Normal true s1
  ∧ isReadyToReview example_env (octokit_with (pull_by "a" None)) s1
    = Normal true s1.
Proof.
  intros s1.
  assert (isReadyToReview example_env (octokit_with (pull_by "a" None))
            (new_store (λ _, 0)) = Normal true s1) as Hfirst
    by (vm_compute; reflexivity).
  split; [exact Hfirst|].
  apply (isReadyToReview_twice example_env (octokit_with (pull_by "a" None))
           (new_store (λ _, 0)) true s1 Hfirst).
  by eexists.
Defined.

Section Workflow.
Context (config : Config) (env : Env) (octokit : Octokit).

Local Abbreviation getPR := (getPR env octokit).
Local Abbreviation isReadyToReview := (isReadyToReview env octokit).
Local Abbreviation getPRAuthor := (getPRAuthor env octokit).
Local Abbreviation selectReviewers := (selectReviewers config env octokit).
Local Abbreviation run := (run config env octokit).

Lemma calls_snoc t ev : is_call ev = false → calls (t ++ [ev]) = calls t.
Proof.
  intros Hev. unfold calls. rewrite filter_app, filter_cons_False, app_nil_r;
    [done | by rewrite Hev].
Qed.

Lemma isReadyToReview_calls s b s1 :
  isReadyToReview s = Normal b s1 → calls (trace s1) = calls (trace s).
Proof.
  destruct (getPR_normal env octokit s) as (v & s1' & Hget & _ & _ & Hcalls).
  rewrite (isReadyToReview_getPR _ _ _ _ _ Hget). by intros [= _ <-].
Qed.

Lemma getPRAuthor_calls s author s1 :
  getPRAuthor s = Normal author s1 → calls (trace s1) = calls (trace s).
Proof.
  destruct (getPR_normal env octokit s) as (v & s1' & Hget & _ & _ & Hcalls).
  rewrite (getPRAuthor_getPR _ _ _ _ _ Hget). by intros [= _ <-].
Qed.

(** [selectReviewers] calls neither the reviewer API nor Slack. *)
Lemma selectReviewers_calls fuel s res s' :
  selectReviewers fuel s = Normal res s' →
  calls (trace s') = calls (trace s).
Proof.
  intros (author & s0 & thrown & s1 & Hauthor & Hloop & _ & _ & Hcalls)
    %selectReviewers_normal.
  apply getPRAuthor_calls in Hauthor.
  apply select_groups_inv in Hloop as (_ & _ & Htrace).
  rewrite Hcalls, Htrace. done.
Qed.

(** C8. In a run of the workflow, after the first log line: when the
    pull request that [getPR] gives is a draft, [isReadyToReview]
    returns [false] and [run] completes without a reviewer request and
    without a Slack message; and when the pull request is ready and
    [selectReviewers] returns the empty list, [run] completes without
    either call too. *)
Theorem run_skips fuel s s0 :
  console_log "RUNNING LOTTERY RUN FUNCTION" s = Normal tt s0 →
  (∀ p s1, getPR s0 = Normal (Some p) s1 → draft p = Some true →
     isReadyToReview s0 = Normal false s1
     ∧ run fuel s = Normal tt s1
     ∧ calls (trace s1) = calls (trace s))
  ∧ (∀ s1 s2, isReadyToReview s0 = Normal true s1 →
       selectReviewers fuel s1 = Normal [] s2 →
       run fuel s = Normal tt s2
       ∧ calls (trace s2) = calls (trace s)).
Proof.
  intros Hlog.
  assert (calls (trace s0) = calls (trace s)) as Hcalls0.
  { injection Hlog as <-. simpl. by apply calls_snoc. }
  split.
  - intros p s1 Hget Hdraft.
    assert (isReadyToReview s0 = Normal false s1) as Hready.
    { rewrite (isReadyToReview_getPR _ _ _ _ _ Hget). by rewrite Hdraft. }
    split; [done|]. split.
    + unfold run. rewrite (bind_run _ _ _ _ _ Hlog).
      apply try_catch_normal. by rewrite (bind_run _ _ _ _ _ Hready).
    + by rewrite (isReadyToReview_calls _ _ _ Hready).
  - intros s1 s2 Hready Hselect. split.
    + unfold run. rewrite (bind_run _ _ _ _ _ Hlog).
      apply try_catch_normal. rewrite (bind_run _ _ _ _ _ Hready).
      by rewrite (bind_run _ _ _ _ _ Hselect).
    + rewrite (selectReviewers_calls _ _ _ _ Hselect).
      by rewrite (isReadyToReview_calls _ _ _ Hready).
Qed.

End Workflow.

(** * The Slack notification *)

Lemma add_entry_other table e k :
  (split ":" e).1 ≠ k → add_entry table e !! k = table !! k.
Proof.
  unfold add_entry. destruct (split ":" e) as [u rest]. simpl. intros Hne.
  unfold object_set. case_bool_decide; [done|]. by apply lookup_insert_ne.
Qed.

Lemma add_entry_key table e :
  (split ":" e).1 ≠ "__proto__" →
  add_entry table e !! (split ":" e).1 = Some (head (split ":" e).2).
Proof.
  unfold add_entry. destruct (split ":" e) as [u rest]. simpl. intros Hne.
  unfold object_set. rewrite bool_decide_eq_false_2 by done.
  apply lookup_insert_eq.
Qed.

Lemma foldl_add_entry_other entries :
  ∀ table k, (∀ e, e ∈ entries → (split ":" e).1 ≠ k) →
    foldl add_entry table entries !! k = table !! k.
Proof.
  induction entries as [|e entries IH]; intros table k Hne; simpl; [done|].
  rewrite IH.
  - apply add_entry_other, Hne, elem_of_cons. by left.
  - intros e' He'. apply Hne, elem_of_cons. by right.
Qed.

(** The table is built from all the entries, in group order. *)
Lemma slack_table_entries gs :
  ∀ table result, slack_table gs table = inr result →
    result = foldl add_entry table (all_entries gs).
Proof.
  unfold all_entries.
  induction gs as [|g gs IH]; intros table result; simpl.
  - by intros [= <-].
  - destruct (usernames g) as [entries|]; [|done]. simpl.
    rewrite foldl_app. apply IH.
Qed.

(** C10 (as amended). For a username [u] other than ["__proto__"] whose
    last entry in the configuration, in group order, is [u] alone without
    a [':'], the table built by [alertOnSlack] holds [undefined] for [u],
    and the text sent to Slack has ["@undefined"] where [u] stands in the
    list of reviewers. *)
Theorem alertOnSlack_undefined_handle config table u l1 l2 before after s :
  slack_table (groups config) ∅ = inr table →
  u ≠ "__proto__" →
  split ":" u = (u, []) →
  all_entries (groups config) = l1 ++ u :: l2 →
  (∀ e, e ∈ l2 → (split ":" e).1 ≠ u) →
  table !! u = Some None
  ∧ mention table (Some u) = "@undefined"
  ∧ alertOnSlack config (before ++ Some u :: after) s
    = Normal tt
        {| pr := pr s; random := random s;
           trace := trace s ++
             [ConsoleLogTable "usernameToSlackMap" table;
              WebhookSend
                (slack_text
                   (join ", " (map (mention table) before ++
                               "@undefined" :: map (mention table) after))
                   (title <$> pr s) (url <$> pr s))] |}.
Proof.
  intros Htable Hproto Hsplit Hentries Hlast.
  assert (table !! u = Some None) as Hlookup.
  { rewrite (slack_table_entries _ _ _ Htable), Hentries, foldl_app. simpl.
    rewrite foldl_add_entry_other by done.
    pose proof (add_entry_key (foldl add_entry ∅ l1) u) as Hkey.
    rewrite Hsplit in Hkey. simpl in Hkey. by apply Hkey. }
  assert (mention table (Some u) = "@undefined") as Hmention.
  { unfold mention, object_get. simpl.
    rewrite bool_decide_eq_false_2 by done. by rewrite Hlookup. }
  split; [done|]. split; [done|].
  unfold alertOnSlack. rewrite Htable.
  unfold slackUsernames. rewrite map_app. simpl. rewrite Hmention.
  unfold mbind, Method_bind, emit, get_pr. simpl.
  by rewrite <- app_assoc.
Qed.

Lemma alertOnSlack_undefined_handle_witness :
  let table : gmap string (option string) :=
    <["bob" := None]> (<["amy" := Some "U7"]> ∅) in
  let s := cached_store (pull_by "a" None) in
  table !! "bob" = Some None
  ∧ mention table (Some "bob") = "@undefined"
  ∧ alertOnSlack no_handle [Some "amy"; Some "bob"] s
    = Normal tt
        {| pr := pr s; random := random s;
           trace := trace s ++
             [ConsoleLogTable "usernameToSlackMap" table;
              WebhookSend
                (slack_text
                   (join ", " (map (mention table) [Some "amy"] ++
                               "@undefined" :: map (mention table) []))
                   (title <$> pr s) (url <$> pr s))] |}.
Proof.
  intros table s.
  apply (alertOnSlack_undefined_handle no_handle table "bob"
           ["amy:U7"] [] [Some "amy"] [] s).
  - reflexivity.
  - discriminate.
  - reflexivity.
  - reflexivity.
  - intros e He. by apply elem_of_nil in He.
Defined.

(** C10, counterexample. A user listed without a contact handle in one
    group and with one in a later group is in the table with that handle,
    and is rendered with it. *)
Lemma alertOnSlack_later_handle_wins :
  ∃ table,
    slack_table (groups handle_in_second_group) ∅ = inr table
    ∧ "bob" ∈ all_entries (groups handle_in_second_group)
    ∧ table !! "bob" = Some (Some "U1")
    ∧ mention table (Some "bob") = "@U1".
Proof.
  exists (<["bob" := Some "U1"]> (<["bob" := None]> ∅)).
  split; [reflexivity|]. split; [by apply includes_true|].
  split; [reflexivity|]. vm_compute. reflexivity.
Qed.

Lemma run_skips_witness :
  let log := ConsoleLog "RUNNING LOTTERY RUN FUNCTION" in
  let fetch := PullsList "octo" (Some "repo") in
  let s := new_store (λ _, 0) in
  let after (p : Pull) : Store :=
    {| pr := Some p; random := λ _, 0; trace := [log; fetch] |} in
  (run scenario_B example_env (octokit_with (pull_by "a" (Some true))) 2 s
     = Normal tt (after (pull_by "a" (Some true)))
   ∧ calls (trace (after (pull_by "a" (Some true)))) = calls (trace s))
  ∧ (run no_groups example_env (octokit_with (pull_by "a" None)) 2 s
       = Normal tt (after (pull_by "a" None))
     ∧ calls (trace (after (pull_by "a" None))) = calls (trace s)).
Proof.
  intros log fetch s after.
  set (s0 := {| pr := None; random := λ _, 0; trace := [log] |}).
  split.
  - destruct (run_skips scenario_B example_env
                (octokit_with (pull_by "a" (Some true))) 2 s s0 eq_refl)
      as [Hdraft _].
    destruct (Hdraft (pull_by "a" (Some true))
                (after (pull_by "a" (Some true))) eq_refl eq_refl)
      as (_ & Hrun & Hcalls).
    by split.
  - destruct (run_skips no_groups example_env
                (octokit_with (pull_by "a" None)) 2 s s0 eq_refl)
      as [_ Hempty].
    exact (Hempty (after (pull_by "a" None)) (after (pull_by "a" None))
             eq_refl eq_refl).
Defined.

(** * Further properties of the sampler *)

(** [pickRandom] returns, for some number of iterations, exactly when at
    most one pick more than the pool holds is asked for. *)
Theorem pickRandom_returns_iff items n ignore rs :
  (∃ fuel r, pickRandom fuel items n ignore rs = Some r)
  ↔ n ≤ pool_size items ignore + 1.
Proof.
  split.
  - intros (fuel & r & Hrun).
    destruct (decide (n ≤ pool_size items ignore + 1)) as [|Hbig]; [done|].
    rewrite (pickRandom_diverges items n ignore rs) in Hrun; [done | lia].
  - intros Hn. destruct (pickRandom_terminates items n ignore rs Hn) as [r Hr].
    exists (S (length items)), r. apply Hr. lia.
Qed.

Lemma pickRandom_returns_iff_witness :
  (∃ fuel r, pickRandom fuel ["a"; "b"] 2 [Some "a"] (λ _, 0) = Some r)
  ∧ ¬ (∃ fuel r, pickRandom fuel ["a"; "b"] 3 [Some "a"] (λ _, 0) = Some r).
Proof.
  split.
  - apply (pickRandom_returns_iff ["a"; "b"] 2 [Some "a"] (λ _, 0)).
    vm_compute. lia.
  - intros H.
    apply (pickRandom_returns_iff ["a"; "b"] 3 [Some "a"] (λ _, 0)) in H.
    vm_compute in H. lia.
Defined.

(** When at least the whole pool is asked for, every eligible item is
    among the picks that [pickRandom] returns. *)
Theorem pickRandom_takes_whole_pool fuel items n ignore rs picks rs' :
  pool_size items ignore ≤ n →
  pickRandom fuel items n ignore rs = Some (picks, rs') →
  ∀ x, x ∈ items → Some x ∉ ignore → Some x ∈ picks.
Proof.
  intros Hn (Hlen & Hnd & Hdef & Hin)%pickRandom_sound x Hx Hign.
  apply elem_of_defined.
  assert (defined picks ⊆+ remove_dups (eligible items ignore)) as Hsub.
  { apply NoDup_submseteq; [by apply NoDup_defined|].
    intros y Hy%elem_of_defined. rewrite elem_of_remove_dups.
    by apply elem_of_eligible, Hin. }
  apply submseteq_length_Permutation in Hsub.
  - rewrite Hsub, elem_of_remove_dups. by apply elem_of_eligible.
  - rewrite Hdef. unfold pool_size in *. lia.
Qed.

Lemma pickRandom_takes_whole_pool_witness :
  pickRandom 3 ["a"; "b"; "c"] 2 [Some "a"] (λ _, 1)
    = Some ([Some "c"; Some "b"], next_draws (next_draws (λ _, 1)))
  ∧ Some "b" ∈ [Some "c"; Some "b"].
Proof.
  assert (pickRandom 3 ["a"; "b"; "c"] 2 [Some "a"] (λ _, 1)
          = Some ([Some "c"; Some "b"], next_draws (next_draws (λ _, 1))))
    as Hrun by (vm_compute; reflexivity).
  split; [exact Hrun|].
  apply (pickRandom_takes_whole_pool 3 ["a"; "b"; "c"] 2 [Some "a"] (λ _, 1)
           _ _ ltac:(vm_compute; lia) Hrun "b").
  - by apply includes_true.
  - by apply includes_false.
Defined.

(** When every item is to be ignored and one pick is asked for,
    [pickRandom] returns the single entry [undefined], after one draw. *)
Theorem pickRandom_empty_pool fuel items ignore rs :
  (∀ x, x ∈ items → Some x ∈ ignore) →
  0 < fuel →
  pickRandom fuel items 1 ignore rs = Some ([None], next_draws rs).
Proof.
  intros Hall Hfuel. unfold pickRandom.
  assert (eligible items ignore = []) as ->.
  { destruct (eligible items ignore) as [|x l] eqn:Hel; [done|].
    assert (x ∈ eligible items ignore) as Hx
      by (rewrite Hel; apply elem_of_cons; by left).
    apply elem_of_eligible in Hx as [Hx Hnot]. by apply Hall in Hx. }
  destruct fuel as [|fuel]; [lia|].
  rewrite pick_loop_unfold. cbv zeta.
  change (pick_loop fuel 1 [] [None] (next_draws rs)
          = Some ([None], next_draws rs)).
  by rewrite pick_loop_unfold.
Qed.

Lemma pickRandom_empty_pool_witness :
  pickRandom 1 ["a"; "a"] 1 [Some "b"; Some "a"] (λ _, 5)
  = Some ([None], next_draws (λ _, 5)).
Proof.
  apply (pickRandom_empty_pool 1 ["a"; "a"] [Some "b"; Some "a"] (λ _, 5)).
  - intros x Hx. apply includes_true.
    apply includes_true in Hx. revert x Hx.
    intros x [->|[->|Hx]%elem_of_cons]%includes_true%elem_of_cons;
      [reflexivity..|by apply elem_of_nil in Hx].
  - lia.
Defined.

(** * Further properties of the selection *)

Lemma all_entries_cons g gs entries :
  usernames g = Some entries →
  all_entries (g :: gs) = entries ++ all_entries gs.
Proof. unfold all_entries. simpl. by intros ->. Qed.

Lemma total_requested_cons author g gs :
  total_requested author (g :: gs)
  = draw_count author g + total_requested author gs.
Proof. reflexivity. Qed.

Lemma strip_handles_app l k :
  strip_handles (l ++ k) = strip_handles l ++ strip_handles k.
Proof. unfold strip_handles. apply map_app. Qed.

(** The picks of the loop over the groups come from the groups. *)
Lemma select_groups_from_config fuel author gs :
  ∀ selected s res thrown s',
    select_groups fuel author gs selected s = Normal (res, thrown) s' →
    ∀ x, Some x ∈ res →
      Some x ∈ selected ∨ x ∈ strip_handles (all_entries gs).
Proof.
  induction gs as [|g gs IH]; intros selected s res thrown s'; simpl.
  { intros [= <- <- <-] x Hx. by left. }
  destruct (usernames g) as [entries|] eqn:Hg;
    [|intros [= <- <- <-] x Hx; by left].
  rewrite (all_entries_cons _ _ _ Hg), strip_handles_app.
  assert (∀ sel s0, select_groups fuel author gs sel s0
                    = Normal (res, thrown) s' →
          (∀ x, Some x ∈ sel →
             Some x ∈ selected ∨ x ∈ strip_handles entries) →
          ∀ x, Some x ∈ res →
            Some x ∈ selected
            ∨ x ∈ strip_handles entries ++ strip_handles (all_entries gs))
    as Hstep.
  { intros sel s0 Hrun Hsel x Hx.
    destruct (IH _ _ _ _ _ Hrun x Hx) as [Hin|Hin].
    - destruct (Hsel x Hin) as [?|?]; [by left|].
      right. apply elem_of_app. by left.
    - right. apply elem_of_app. by right. }
  destruct (reviewersToRequest _ _ _ _) as [[|k]|];
    try (intros Hrun; eapply Hstep; [exact Hrun | by left]).
  intros (picks & s1 & Hpick & Hrest)%bind_normal.
  apply call_pickRandom_normal in Hpick as (rs' & Hpick & ->).
  apply pickRandom_sound in Hpick as (_ & _ & _ & Hin).
  eapply Hstep; [exact Hrest|].
  intros x [?|Hx]%elem_of_app; [by left|]. right. by apply Hin.
Qed.

(** Every username that [selectReviewers] returns is the username of an
    entry of some group of the configuration. *)
Theorem selectReviewers_from_config config env octokit fuel s res s' :
  selectReviewers config env octokit fuel s = Normal res s' →
  ∀ x, Some x ∈ res → x ∈ strip_handles (all_entries (groups config)).
Proof.
  intros (author & s0 & thrown & s1 & _ & Hloop & _)%selectReviewers_normal
    x Hx.
  destruct (select_groups_from_config _ _ _ _ _ _ _ _ Hloop x Hx) as [H|H];
    [by apply elem_of_nil in H | done].
Qed.

Lemma selectReviewers_from_config_witness :
  let s := cached_store (pull_by "a" None) in
  "d" ∈ strip_handles (all_entries (groups scenario_D)).
Proof.
  intros s.
  apply (selectReviewers_from_config scenario_D example_env
           (octokit_with (pull_by "a" None)) 1 s [Some "b"; Some "d"]
           {| pr := pr s; random := next_draws (next_draws (random s));
              trace := trace s |}).
  - vm_compute. reflexivity.
  - apply elem_of_cons. right. apply elem_of_cons. by left.
Defined.

(** When every group has its usernames, the loop over the groups ends
    without an error and adds as many entries as the draw counts say. *)
Lemma select_groups_length fuel author gs :
  Forall (λ g, is_Some (usernames g)) gs →
  ∀ selected s res thrown s',
    select_groups fuel author gs selected s = Normal (res, thrown) s' →
    thrown = None
    ∧ length res = length selected + total_requested author gs.
Proof.
  induction 1 as [|g gs [entries Hg] _ IH]; intros selected s res thrown s';
    simpl.
  { intros [= <- <- <-]. unfold total_requested. simpl. split; [done|lia]. }
  rewrite total_requested_cons. unfold draw_count. rewrite Hg.
  destruct (reviewersToRequest _ _ _ _) as [[|k]|]; simpl;
    try (intros Hrun; apply IH in Hrun as [-> ->]; split; [done|lia]).
  intros (picks & s1 & Hpick & Hrest)%bind_normal.
  apply call_pickRandom_normal in Hpick as (rs' & Hpick & ->).
  apply pickRandom_sound in Hpick as (Hlen & _).
  apply IH in Hrest as [-> ->]. split; [done|].
  rewrite length_app, Hlen. lia.
Qed.

(** When every group has its usernames, the list that [selectReviewers]
    returns has exactly as many entries as the draw counts of the groups
    add up to, whether the pools could supply them or not. *)
Theorem selectReviewers_length config env octokit fuel s author s0 res s' :
  Forall (λ g, is_Some (usernames g)) (groups config) →
  getPRAuthor env octokit s = Normal author s0 →
  selectReviewers config env octokit fuel s = Normal res s' →
  length res = total_requested author (groups config).
Proof.
  intros Hall Hauthor
    (author' & s0' & thrown & s1 & Hauthor' & Hloop & _)%selectReviewers_normal.
  rewrite Hauthor in Hauthor'. injection Hauthor' as <- <-.
  by apply (select_groups_length _ _ _ Hall) in Hloop as [_ ->].
Qed.

Lemma selectReviewers_length_witness :
  length ([None; None] : list (option string))
  = total_requested "a" (groups two_exhausted_groups).
Proof.
  pose (s := cached_store (pull_by "a" None)).
  apply (selectReviewers_length two_exhausted_groups example_env
           (octokit_with (pull_by "a" None)) 1 s "a" s [None; None]
           {| pr := pr s; random := next_draws (next_draws (random s));
              trace := trace s |}).
  - repeat constructor; by eexists.
  - reflexivity.
  - vm_compute. reflexivity.
Defined.

(** The pool is at least the distinct items less the ignored entries. *)
Lemma pool_size_ge items ignore :
  length (remove_dups items) ≤ pool_size items ignore + length ignore.
Proof.
  unfold pool_size.
  transitivity (length (remove_dups (eligible items ignore) ++ defined ignore)).
  - apply submseteq_length, NoDup_submseteq; [apply NoDup_remove_dups|].
    intros x Hx. rewrite elem_of_remove_dups in Hx. apply elem_of_app.
    destruct (decide (Some x ∈ ignore)) as [Hin|Hin].
    + right. by apply elem_of_defined.
    + left. rewrite elem_of_remove_dups. by apply elem_of_eligible.
  - rewrite length_app. pose proof (length_defined_le ignore). lia.
Qed.

Lemma select_groups_provisioned fuel author gs :
  (∀ g entries, g ∈ gs → usernames g = Some entries → length entries < fuel) →
  ∀ selected s,
    None ∉ selected →
    provisioned author gs (length selected) →
    ∃ res s',
      select_groups fuel author gs selected s = Normal (res, None) s'
      ∧ (None ∉ res)
      ∧ length res = length selected + total_requested author gs.
Proof.
  induction gs as [|g gs IH]; intros Hfuel selected s Hsel Hprov; simpl.
  { exists selected, s. unfold total_requested. simpl.
    repeat split; [done|lia]. }
  simpl in Hprov. rewrite total_requested_cons.
  assert (∀ g' entries, g' ∈ gs → usernames g' = Some entries →
          length entries < fuel) as Hfuel'.
  { intros g' entries Hg'. apply Hfuel, elem_of_cons. by right. }
  specialize (IH Hfuel').
  destruct (usernames g) as [entries|] eqn:Hg; [|done].
  destruct Hprov as [Hcount Hprov]. unfold draw_count in *. rewrite Hg in *.
  assert (provisioned author gs (length selected + 0) →
          ∃ res s',
            select_groups fuel author gs selected s = Normal (res, None) s'
            ∧ (None ∉ res)
            ∧ length res = length selected + (0 + total_requested author gs))
    as Hskip.
  { rewrite Nat.add_0_r. intros Hprov'.
    destruct (IH selected s Hsel Hprov') as (res & s' & Hrun & Hres & Hlen).
    by exists res, s'. }
  destruct (reviewersToRequest _ _ _ _) as [[|k]|] eqn:Hn; simpl in *;
    [by apply Hskip| |by apply Hskip].
  pose proof (pool_size_ge (strip_handles entries) (selected ++ [Some author]))
    as Hpool.
  rewrite length_app in Hpool. simpl in Hpool.
  destruct (pickRandom_terminates (strip_handles entries) (S k)
              (selected ++ [Some author]) (random s)) as [[picks rs'] Hrun];
    [lia|].
  assert (length (strip_handles entries) < fuel) as Hlt.
  { unfold strip_handles. rewrite length_map. eapply Hfuel; [|exact Hg].
    apply elem_of_cons. by left. }
  specialize (Hrun fuel Hlt).
  destruct (pickRandom_sound _ _ _ _ _ _ _ Hrun) as (Hlen & _ & Hdef & _).
  assert (None ∉ picks) as Hpicks.
  { intros Hnone%length_defined_None. lia. }
  destruct (IH (selected ++ picks)
              {| pr := pr s; random := rs'; trace := trace s |})
    as (res & s' & Hrest & Hres & Hreslen).
  - intros [?|?]%elem_of_app; done.
  - by rewrite length_app, Hlen.
  - exists res, s'. split; [|split; [done|]].
    + unfold mbind, Method_bind, call_pickRandom. by rewrite Hrun.
    + rewrite Hreslen, length_app, Hlen. lia.
Qed.

(** When every group has enough distinct usernames for its draw count,
    next to the author and the reviewers picked before it,
    [selectReviewers] returns, given more iterations than the longest
    group has entries: no entry is [undefined] and there are as many as
    the draw counts add up to. *)
Theorem selectReviewers_provisioned config env octokit fuel s author s0 :
  getPRAuthor env octokit s = Normal author s0 →
  provisioned author (groups config) 0 →
  (∀ g entries, g ∈ groups config → usernames g = Some entries →
     length entries < fuel) →
  ∃ res s',
    selectReviewers config env octokit fuel s = Normal res s'
    ∧ (None ∉ res)
    ∧ length res = total_requested author (groups config).
Proof.
  intros Hauthor Hprov Hfuel.
  destruct (select_groups_provisioned fuel author (groups config) Hfuel [] s0)
    as (res & s' & Hloop & Hnone & Hlen); [by intros ?%elem_of_nil|done|].
  exists res, s'. split; [|by split].
  unfold selectReviewers. rewrite (bind_run _ _ _ _ _ Hauthor).
  by rewrite (bind_run _ _ _ _ _ Hloop).
Qed.

Lemma selectReviewers_provisioned_witness :
  ∃ res s',
    selectReviewers scenario_A example_env (octokit_with (pull_by "a" None))
      4 (cached_store (pull_by "a" None)) = Normal res s'
    ∧ (None ∉ res)
    ∧ length res = total_requested "a" (groups scenario_A).
Proof.
  apply (selectReviewers_provisioned scenario_A example_env
           (octokit_with (pull_by "a" None)) 4
           (cached_store (pull_by "a" None)) "a"
           (cached_store (pull_by "a" None)) eq_refl).
  - vm_compute. repeat split; lia.
  - intros g entries [->|Hg]%elem_of_cons; [|by apply elem_of_nil in Hg].
    intros [= <-]. simpl. lia.
Defined.

(** * Further properties of the workflow *)

Lemma keeps_ret {A} R `{!Reflexive R} (a : A) : keeps R (mret a).
Proof. intros s. simpl. reflexivity. Qed.

Lemma keeps_throw {A} R `{!Reflexive R} e : keeps R (throw (A := A) e).
Proof. intros s. simpl. reflexivity. Qed.

Lemma keeps_bind {A B} R `{!Transitive R} (m : Method A) (k : A → Method B) :
  keeps R m → (∀ a, keeps R (k a)) → keeps R (m ≫= k).
Proof.
  intros Hm Hk s. specialize (Hm s). unfold mbind, Method_bind.
  destruct (m s) as [a s1|e s1|]; [|done..].
  specialize (Hk a s1). destruct (k a s1); [by etransitivity..|done].
Qed.

Lemma keeps_try_catch {A} R `{!Transitive R} (body : Method A) handler :
  keeps R body → (∀ e, keeps R (handler e)) → keeps R (try_catch body handler).
Proof.
  intros Hbody Hhandler s. specialize (Hbody s). unfold try_catch.
  destruct (body s) as [a s1|e s1|]; [done| |done].
  specialize (Hhandler e s1). destruct (handler e s1); [by etransitivity..|done].
Qed.

Lemma try_catch_bind_run {A B} (m : Method A) (k : A → Method B) handler
    s a s1 :
  m s = Normal a s1 →
  try_catch (m ≫= k) handler s = try_catch (k a) handler s1.
Proof. intros H. unfold try_catch. by rewrite (bind_run _ _ _ _ _ H). Qed.

#[local] Instance quiet_refl : Reflexive quiet.
Proof. by intros s _. Qed.

#[local] Instance quiet_trans : Transitive quiet.
Proof.
  intros s1 s2 s3 H12 H23 Hsome. destruct (H12 Hsome) as [Hpr Hf].
  destruct H23 as [Hpr' Hf']; [by rewrite Hpr|]. split; congruence.
Qed.

Lemma fetches_snoc t ev :
  is_fetch ev = false → fetches (t ++ [ev]) = fetches t.
Proof.
  intros Hev. unfold fetches.
  rewrite filter_app, filter_cons_False, app_nil_r; [done | by rewrite Hev].
Qed.

Lemma keeps_quiet_emit ev : is_fetch ev = false → keeps quiet (emit ev).
Proof. intros Hev s _. simpl. by rewrite fetches_snoc. Qed.

Lemma keeps_quiet_report e :
  keeps quiet (core_error e;; core_setFailed e).
Proof.
  apply keeps_bind; [apply _| |intros _]; by apply keeps_quiet_emit.
Qed.

(** The loop over the groups does not throw: the error of a group is
    given back with [selected]. *)
Lemma select_groups_no_throw fuel author gs :
  ∀ selected s e s', select_groups fuel author gs selected s ≠ Throw e s'.
Proof.
  induction gs as [|g gs IH]; intros selected s e s'; simpl; [done|].
  destruct (usernames g); [|done].
  destruct (reviewersToRequest _ _ _ _) as [[|k]|]; try apply IH.
  unfold mbind, Method_bind, call_pickRandom.
  destruct (pickRandom _ _ _ _ _) as [[picks rs']|]; [apply IH|done].
Qed.

Lemma keeps_quiet_select_groups fuel author gs selected :
  keeps quiet (select_groups fuel author gs selected).
Proof.
  intros s.
  destruct (select_groups fuel author gs selected s)
    as [[res thrown] s'|e s'|] eqn:Hrun; [| |done].
  - apply select_groups_inv in Hrun as (_ & Hpr & Htrace).
    intros _. by rewrite Hpr, Htrace.
  - by apply select_groups_no_throw in Hrun.
Qed.

Section WorkflowTraces.
Context (config : Config) (env : Env) (octokit : Octokit).

Local Abbreviation getPR := (getPR env octokit).
Local Abbreviation isReadyToReview := (isReadyToReview env octokit).
Local Abbreviation getPRAuthor := (getPRAuthor env octokit).
Local Abbreviation setReviewers := (setReviewers env octokit).
Local Abbreviation selectReviewers := (selectReviewers config env octokit).
Local Abbreviation run := (run config env octokit).
Local Abbreviation owner := (getOwnerAndRepo env).1.
Local Abbreviation repo := (getOwnerAndRepo env).2.
Local Abbreviation not_found :=
  (Error ("PR matching ref not found: " +:+ ref env)).

Lemma find_first_match data l1 d l2 :
  data = l1 ++ d :: l2 →
  (∀ d', d' ∈ l1 → head_ref d' ≠ ref env) →
  head_ref d = ref env →
  List.find (λ d, bool_decide (head_ref d = ref env)) data = Some d.
Proof.
  intros -> Hl1 Hd. induction l1 as [|d' l1 IH]; simpl.
  - by rewrite bool_decide_eq_true_2.
  - rewrite bool_decide_eq_false_2.
    + apply IH. intros d'' Hd''. apply Hl1, elem_of_cons. by right.
    + apply Hl1, elem_of_cons. by left.
Qed.

Lemma find_no_match data :
  (∀ d, d ∈ data → head_ref d ≠ ref env) →
  List.find (λ d, bool_decide (head_ref d = ref env)) data = None.
Proof.
  induction data as [|d data IH]; intros Hdata; simpl; [done|].
  rewrite bool_decide_eq_false_2.
  - apply IH. intros d' Hd'. apply Hdata, elem_of_cons. by right.
  - apply Hdata, elem_of_cons. by left.
Qed.

(** What [getPR] does when nothing is cached, by the answer to the
    request and the result of [find]. *)
Lemma getPR_fetch s :
  pr s = None →
  getPR s =
  match pulls_list octokit with
  | inl e =>
      Normal None {| pr := None; random := random s;
                     trace := trace s ++ [PullsList owner repo; CoreError e;
                                          CoreSetFailed e] |}
  | inr data =>
      match List.find (λ d, bool_decide (head_ref d = ref env)) data with
      | Some d =>
          Normal (Some (pull d))
            {| pr := Some (pull d); random := random s;
               trace := trace s ++ [PullsList owner repo] |}
      | None =>
          Normal None {| pr := None; random := random s;
                         trace := trace s ++ [PullsList owner repo;
                                              CoreError not_found;
                                              CoreSetFailed not_found] |}
      end
  end.
Proof.
  intros Hpr. unfold getPR, mbind, Method_bind, get_pr. rewrite Hpr.
  unfold try_catch, octokit_pulls_list, mbind, Method_bind, emit, throw,
    set_pr, core_error, core_setFailed, emit, mret, Method_ret. simpl.
  destruct (pulls_list octokit) as [e|data]; simpl.
  - by rewrite Hpr, <- !app_assoc.
  - destruct (List.find _ data) as [d|]; simpl; [done|].
    by rewrite <- !app_assoc.
Qed.

(** With nothing cached, [getPR] returns and caches the first pull request
    of the answer whose [head.ref] is the ref of the environment, after
    one request. *)
Theorem getPR_first_match s data l1 d l2 :
  pr s = None →
  pulls_list octokit = inr data →
  data = l1 ++ d :: l2 →
  (∀ d', d' ∈ l1 → head_ref d' ≠ ref env) →
  head_ref d = ref env →
  getPR s = Normal (Some (pull d))
              {| pr := Some (pull d); random := random s;
                 trace := trace s ++ [PullsList owner repo] |}.
Proof.
  intros Hpr Hlist Hdata Hl1 Hd. rewrite (getPR_fetch s Hpr), Hlist.
  by rewrite (find_first_match data l1 d l2 Hdata Hl1 Hd).
Qed.

(** When the lookup of the pull request fails, [run] ends there. *)
Lemma run_lookup_failed fuel s s1 :
  getPR {| pr := pr s; random := random s;
           trace := trace s ++ [ConsoleLog "RUNNING LOTTERY RUN FUNCTION"] |}
    = Normal None s1 →
  run fuel s = Normal tt s1.
Proof.
  intros Hget. unfold run.
  rewrite (bind_run _ _ _ tt _ (eq_refl : console_log _ s = Normal tt _)).
  apply try_catch_normal.
  by rewrite (bind_run _ _ _ _ _ (isReadyToReview_getPR _ _ _ _ _ Hget)).
Qed.

(** When no pull request of the answer has the ref of the environment,
    [run] reports that no pull request matches the ref and does nothing
    else: no reviewer is drawn or requested and Slack is not notified. *)
Theorem run_not_found fuel s data :
  pr s = None →
  pulls_list octokit = inr data →
  (∀ d, d ∈ data → head_ref d ≠ ref env) →
  run fuel s =
  Normal tt {| pr := None; random := random s;
               trace := trace s ++
                 [ConsoleLog "RUNNING LOTTERY RUN FUNCTION";
                  PullsList owner repo;
                  CoreError not_found; CoreSetFailed not_found] |}.
Proof.
  intros Hpr Hlist Hdata. apply run_lookup_failed.
  rewrite getPR_fetch by done. rewrite Hlist, (find_no_match data Hdata).
  simpl. by rewrite <- app_assoc.
Qed.

(** When the request for the pull requests is rejected, [run] reports the
    error of the request and does nothing else. *)
Theorem run_list_rejected fuel s e :
  pr s = None →
  pulls_list octokit = inl e →
  run fuel s =
  Normal tt {| pr := None; random := random s;
               trace := trace s ++
                 [ConsoleLog "RUNNING LOTTERY RUN FUNCTION";
                  PullsList owner repo; CoreError e; CoreSetFailed e] |}.
Proof.
  intros Hpr Hlist. apply run_lookup_failed.
  rewrite getPR_fetch by done. rewrite Hlist.
  simpl. by rewrite <- app_assoc.
Qed.

End WorkflowTraces.

(** A lookup that fails is not cached. When [getPR] returns [undefined] it
    has made a request and reported an error, and the cache is still
    empty; so the next call makes a request again, whatever GitHub
    answers to that one ([octokit'] stands for the answers at the time of
    the next call), and returns and caches the pull request when the new
    answer has a match. *)
Theorem getPR_failure_not_cached env octokit s s1 :
  getPR env octokit s = Normal None s1 →
  pr s1 = None
  ∧ (∃ e, trace s1 =
          trace s ++ [PullsList (getOwnerAndRepo env).1 (getOwnerAndRepo env).2;
                      CoreError e; CoreSetFailed e])
  ∧ ∀ octokit', ∃ v s2 reports,
      getPR env octokit' s1 = Normal v s2
      ∧ trace s2 =
        trace s1 ++ PullsList (getOwnerAndRepo env).1 (getOwnerAndRepo env).2
                    :: reports
      ∧ pr s2 = v
      ∧ (∀ data d,
           pulls_list octokit' = inr data →
           List.find (λ d, bool_decide (head_ref d = ref env)) data = Some d →
           v = Some (pull d) ∧ reports = []).
Proof.
  intros Hget.
  assert (pr s1 = None
          ∧ ∃ e, trace s1 =
                 trace s ++ [PullsList (getOwnerAndRepo env).1
                               (getOwnerAndRepo env).2;
                             CoreError e; CoreSetFailed e]) as [Hpr1 Htrace].
  { destruct (pr s) as [p|] eqn:Hpr.
    { by rewrite (getPR_cached env octokit s p Hpr) in Hget. }
    rewrite (getPR_fetch env octokit s Hpr) in Hget.
    destruct (pulls_list octokit) as [e|data].
    - injection Hget as <-. split; [done|]. by exists e.
    - destruct (List.find _ data) as [d|]; [done|].
      injection Hget as <-. split; [done|]. by eexists. }
  split; [done|]. split; [done|]. intros octokit'.
  rewrite (getPR_fetch env octokit' s1 Hpr1).
  destruct (pulls_list octokit') as [e|data].
  - eexists _, _, _. split; [reflexivity|]. split; [reflexivity|].
    split; [reflexivity|]. intros ? ? [=].
  - destruct (List.find _ data) as [d|] eqn:Hfind.
    + eexists _, _, []. split; [reflexivity|]. split; [reflexivity|].
      split; [reflexivity|]. intros data' d' [= <-] Hd'.
      rewrite Hfind in Hd'. injection Hd' as <-. done.
    + eexists _, _, _. split; [reflexivity|]. split; [reflexivity|].
      split; [reflexivity|]. intros data' d' [= <-] Hd'.
      rewrite Hfind in Hd'. discriminate.
Qed.

Lemma getPR_first_match_witness :
  let newer := {| head_ref := "feature"; pull := pull_by "b" None |} in
  let octokit :=
    {| pulls_list := inr [ {| head_ref := "other"; pull := pull_by "c" None |};
                           {| head_ref := "feature"; pull := pull_by "a" None |};
                           newer ];
       pulls_requestReviewers := None |} in
  getPR example_env octokit (new_store (λ _, 0))
  = Normal (Some (pull_by "a" None))
      {| pr := Some (pull_by "a" None); random := λ _, 0;
         trace := [PullsList "octo" (Some "repo")] |}.
Proof.
  intros newer octokit.
  apply (getPR_first_match example_env octokit (new_store (λ _, 0)) _
           [ {| head_ref := "other"; pull := pull_by "c" None |} ]
           {| head_ref := "feature"; pull := pull_by "a" None |}
           [newer] eq_refl eq_refl eq_refl).
  - intros d' ->%list_elem_of_singleton. discriminate.
  - reflexivity.
Defined.

Lemma getPR_failure_not_cached_witness :
  let p := pull_by "a" None in
  let rejecting := {| pulls_list := inl (Error "Bad credentials");
                      pulls_requestReviewers := None |} in
  let s1 := {| pr := None; random := λ _, 0;
               trace := [PullsList "octo" (Some "repo");
                         CoreError (Error "Bad credentials");
                         CoreSetFailed (Error "Bad credentials")] |} in
  getPR example_env rejecting (new_store (λ _, 0)) = Normal None s1
  ∧ ∃ s2,
      getPR example_env (octokit_with p) s1 = Normal (Some p) s2
      ∧ trace s2 = trace s1 ++ [PullsList "octo" (Some "repo")]
      ∧ pr s2 = Some p.
Proof.
  intros p rejecting s1.
  assert (getPR example_env rejecting (new_store (λ _, 0)) = Normal None s1)
    as Hfirst by reflexivity.
  split; [exact Hfirst|].
  destruct (getPR_failure_not_cached example_env rejecting
              (new_store (λ _, 0)) s1 Hfirst) as (_ & _ & Hnext).
  destruct (Hnext (octokit_with p)) as (v & s2 & reports & Hget & Htr & Hpr & Hv).
  destruct (Hv _ {| head_ref := "feature"; pull := p |} eq_refl eq_refl)
    as [-> ->].
  by exists s2.
Defined.

Lemma run_not_found_witness :
  let octokit :=
    {| pulls_list := inr [ {| head_ref := "other"; pull := pull_by "c" None |} ];
       pulls_requestReviewers := None |} in
  let e := Error "PR matching ref not found: feature" in
  run scenario_A example_env octokit 4 (new_store (λ _, 0))
  = Normal tt {| pr := None; random := λ _, 0;
                 trace := [ConsoleLog "RUNNING LOTTERY RUN FUNCTION";
                           PullsList "octo" (Some "repo");
                           CoreError e; CoreSetFailed e] |}.
Proof.
  intros octokit e.
  apply (run_not_found scenario_A example_env octokit 4 (new_store (λ _, 0))
           _ eq_refl eq_refl).
  intros d ->%list_elem_of_singleton. discriminate.
Defined.

Lemma run_list_rejected_witness :
  let e := Error "Bad credentials" in
  let octokit := {| pulls_list := inl e; pulls_requestReviewers := None |} in
  run scenario_A example_env octokit 4 (new_store (λ _, 0))
  = Normal tt {| pr := None; random := λ _, 0;
                 trace := [ConsoleLog "RUNNING LOTTERY RUN FUNCTION";
                           PullsList "octo" (Some "repo");
                           CoreError e; CoreSetFailed e] |}.
Proof.
  intros e octokit.
  exact (run_list_rejected scenario_A example_env octokit 4
           (new_store (λ _, 0)) e eq_refl eq_refl).
Defined.

Section WorkflowEffects.
Context (config : Config) (env : Env) (octokit : Octokit).

Local Abbreviation getPR := (getPR env octokit).
Local Abbreviation isReadyToReview := (isReadyToReview env octokit).
Local Abbreviation getPRAuthor := (getPRAuthor env octokit).
Local Abbreviation setReviewers := (setReviewers env octokit).
Local Abbreviation alertOnSlack := (alertOnSlack config).
Local Abbreviation selectReviewers := (selectReviewers config env octokit).
Local Abbreviation run := (run config env octokit).
Local Abbreviation owner := (getOwnerAndRepo env).1.
Local Abbreviation repo := (getOwnerAndRepo env).2.

(** What [setReviewers] does: one request, then the answer to it. *)
Lemma setReviewers_run reviewers s :
  setReviewers reviewers s =
  let s' := {| pr := pr s; random := random s;
               trace := trace s ++
                 [RequestReviewers owner repo (number <$> pr s)
                    (filter (λ r, truthy_string r = true) reviewers)] |} in
  match pulls_requestReviewers octokit with
  | Some e => Throw e s'
  | None => Normal tt s'
  end.
Proof.
  unfold setReviewers, getPRNumber, octokit_pulls_requestReviewers, mbind,
    Method_bind, get_pr, emit, throw, mret, Method_ret. simpl.
  by destruct (pulls_requestReviewers octokit).
Qed.

(** What [alertOnSlack] does: it throws before it logs or sends anything
    when the table cannot be built, and logs the table and sends one
    message otherwise. *)
Lemma alertOnSlack_run reviewers s :
  alertOnSlack reviewers s =
  match slack_table (groups config) ∅ with
  | inl e => Throw e s
  | inr table =>
      Normal tt
        {| pr := pr s; random := random s;
           trace := trace s ++
             [ConsoleLogTable "usernameToSlackMap" table;
              WebhookSend (slack_text (slackUsernames table reviewers)
                             (title <$> pr s) (url <$> pr s))] |}
  end.
Proof.
  unfold alertOnSlack. destruct (slack_table _ _) as [e|table]; [done|].
  unfold mbind, Method_bind, emit, get_pr. simpl. by rewrite <- app_assoc.
Qed.

Lemma slack_table_broken gs g :
  g ∈ gs → usernames g = None →
  ∀ table, slack_table gs table = inl not_iterable.
Proof.
  intros Hin Hg. induction gs as [|g' gs IH]; intros table; simpl.
  - by apply elem_of_nil in Hin.
  - apply elem_of_cons in Hin as [<-|Hin]; [by rewrite Hg|].
    destruct (usernames g'); [by apply IH|done].
Qed.

Lemma getPRAuthor_normal s :
  ∃ author s1, getPRAuthor s = Normal author s1.
Proof.
  destruct (getPR_normal env octokit s) as (v & s1 & Hget & _).
  eexists _, _. by apply getPRAuthor_getPR.
Qed.

Lemma isReadyToReview_normal s :
  ∃ b s1, isReadyToReview s = Normal b s1
    ∧ (b = true → is_Some (pr s1)).
Proof.
  destruct (getPR_normal env octokit s) as (v & s1 & Hget & Hpr & _).
  eexists _, _. split; [by apply isReadyToReview_getPR|].
  rewrite Hpr. by destruct v.
Qed.

(** The handler of [run] catches whatever its body throws. *)
Lemma run_no_throw fuel s e s' : run fuel s ≠ Throw e s'.
Proof.
  unfold run.
  rewrite (bind_run _ _ _ tt _ (eq_refl : console_log _ s = Normal tt _)).
  unfold try_catch.
  match goal with |- context [match ?body with _ => _ end] =>
    destruct body as [[] s1|e1 s1|] end; done.
Qed.

(** No error leaves the lottery: [getPR], [isReadyToReview],
    [getPRAuthor], [selectReviewers] and [run] return, or are still
    running, whatever the collaborators answer and whatever the
    configuration holds; none of them throws. *)
Theorem lottery_never_throws fuel s e s' :
  getPR s ≠ Throw e s'
  ∧ isReadyToReview s ≠ Throw e s'
  ∧ getPRAuthor s ≠ Throw e s'
  ∧ selectReviewers fuel s ≠ Throw e s'
  ∧ run fuel s ≠ Throw e s'.
Proof.
  split; [|split; [|split; [|split]]].
  - destruct (getPR_normal env octokit s) as (v & s1 & -> & _). done.
  - destruct (isReadyToReview_normal s) as (b & s1 & -> & _). done.
  - destruct (getPRAuthor_normal s) as (author & s1 & ->). done.
  - destruct (getPRAuthor_normal s) as (author & s1 & Hauthor).
    unfold selectReviewers. rewrite (bind_run _ _ _ _ _ Hauthor).
    unfold mbind at 1. unfold Method_bind at 1.
    destruct (select_groups fuel author (groups config) [] s1)
      as [[selected thrown] s2|e2 s2|] eqn:Hloop; [| |done].
    + by destruct thrown.
    + by apply select_groups_no_throw in Hloop.
  - apply run_no_throw.
Qed.

(** The request that [setReviewers] makes lists [reviewers.filter(r =>
    !!r)]: the reviewers that are non-empty strings, in their order and
    as often as they are given; it carries the number of the cached pull
    request, and [setReviewers] throws what the request is rejected
    with. *)
Theorem setReviewers_request reviewers s :
  ∃ requested,
    setReviewers reviewers s =
      (match pulls_requestReviewers octokit with
       | Some e => Throw e
       | None => Normal tt
       end)
        {| pr := pr s; random := random s;
           trace := trace s ++
             [RequestReviewers owner repo (number <$> pr s) requested] |}
    ∧ requested = filter (λ r, truthy_string r = true) reviewers
    ∧ requested `sublist_of` reviewers
    ∧ ∀ r, r ∈ requested ↔ r ∈ reviewers ∧ ∃ x, r = Some x ∧ x ≠ "".
Proof.
  exists (filter (λ r, truthy_string r = true) reviewers).
  split; [|split; [done|split]].
  - rewrite setReviewers_run. by destruct (pulls_requestReviewers octokit).
  - apply sublist_filter.
  - intros r. rewrite list_elem_of_filter. split.
    + intros [Hr Hin]. split; [done|]. destruct r as [x|]; [|done].
      exists x. split; [done|]. simpl in Hr. intros ->. done.
    + intros [Hin (x & -> & Hx)]. split; [|done]. simpl.
      by rewrite bool_decide_eq_false_2.
Qed.

(** The steps of [run] after the selection, for a selection that is not
    empty. *)
Lemma run_selected fuel s s0 s1 reviewers s2 :
  console_log "RUNNING LOTTERY RUN FUNCTION" s = Normal tt s0 →
  isReadyToReview s0 = Normal true s1 →
  selectReviewers fuel s1 = Normal reviewers s2 →
  reviewers ≠ [] →
  run fuel s =
  try_catch (setReviewers reviewers;; alertOnSlack reviewers)
    (λ error, core_error error;; core_setFailed error) s2.
Proof.
  intros Hlog Hready Hselect Hne. unfold run.
  rewrite (bind_run _ _ _ _ _ Hlog). unfold try_catch.
  rewrite (bind_run _ _ _ _ _ Hready).
  rewrite (bind_run _ _ _ _ _ Hselect).
  rewrite bool_decide_eq_true_2; [done|].
  destruct reviewers; [done|simpl; lia].
Qed.

(** When the pull request is ready, the selection is not empty, the
    reviewer request is accepted and every group has its usernames, [run]
    makes the reviewer request, with the non-empty usernames, and then
    sends one Slack message, which mentions every selected entry. *)
Theorem run_assigns_then_notifies fuel s s0 s1 reviewers s2 table :
  console_log "RUNNING LOTTERY RUN FUNCTION" s = Normal tt s0 →
  isReadyToReview s0 = Normal true s1 →
  selectReviewers fuel s1 = Normal reviewers s2 →
  reviewers ≠ [] →
  pulls_requestReviewers octokit = None →
  slack_table (groups config) ∅ = inr table →
  run fuel s =
  Normal tt
    {| pr := pr s2; random := random s2;
       trace := trace s2 ++
         [RequestReviewers owner repo (number <$> pr s2)
            (filter (λ r, truthy_string r = true) reviewers);
          ConsoleLogTable "usernameToSlackMap" table;
          WebhookSend (slack_text (slackUsernames table reviewers)
                         (title <$> pr s2) (url <$> pr s2))] |}.
Proof.
  intros Hlog Hready Hselect Hne Hreq Htable.
  rewrite (run_selected fuel s s0 s1 reviewers s2 Hlog Hready Hselect Hne).
  apply try_catch_normal. unfold mbind, Method_bind.
  rewrite setReviewers_run, Hreq. cbv beta zeta iota. rewrite alertOnSlack_run, Htable.
  simpl. by rewrite <- app_assoc.
Qed.

(** When the reviewer request is rejected, [run] reports the error of the
    request and sends no Slack message. *)
Theorem run_request_rejected fuel s s0 s1 reviewers s2 e :
  console_log "RUNNING LOTTERY RUN FUNCTION" s = Normal tt s0 →
  isReadyToReview s0 = Normal true s1 →
  selectReviewers fuel s1 = Normal reviewers s2 →
  reviewers ≠ [] →
  pulls_requestReviewers octokit = Some e →
  run fuel s =
  Normal tt
    {| pr := pr s2; random := random s2;
       trace := trace s2 ++
         [RequestReviewers owner repo (number <$> pr s2)
            (filter (λ r, truthy_string r = true) reviewers);
          CoreError e; CoreSetFailed e] |}.
Proof.
  intros Hlog Hready Hselect Hne Hreq.
  rewrite (run_selected fuel s s0 s1 reviewers s2 Hlog Hready Hselect Hne).
  unfold try_catch, mbind, Method_bind.
  rewrite setReviewers_run, Hreq. cbv beta zeta iota.
  unfold core_error, core_setFailed, emit. simpl. by rewrite <- !app_assoc.
Qed.

(** When a group has no usernames and the groups before it gave
    reviewers, [run] still requests those reviewers, but the Slack
    message is never sent: building the table throws, and [run] reports
    that error. *)
Theorem run_broken_group_not_notified fuel s s0 s1 reviewers s2 g :
  console_log "RUNNING LOTTERY RUN FUNCTION" s = Normal tt s0 →
  isReadyToReview s0 = Normal true s1 →
  selectReviewers fuel s1 = Normal reviewers s2 →
  reviewers ≠ [] →
  pulls_requestReviewers octokit = None →
  g ∈ groups config → usernames g = None →
  run fuel s =
  Normal tt
    {| pr := pr s2; random := random s2;
       trace := trace s2 ++
         [RequestReviewers owner repo (number <$> pr s2)
            (filter (λ r, truthy_string r = true) reviewers);
          CoreError not_iterable; CoreSetFailed not_iterable] |}.
Proof.
  intros Hlog Hready Hselect Hne Hreq Hin Hg.
  rewrite (run_selected fuel s s0 s1 reviewers s2 Hlog Hready Hselect Hne).
  unfold try_catch, mbind, Method_bind.
  rewrite setReviewers_run, Hreq. cbv beta zeta iota.
  rewrite alertOnSlack_run, (slack_table_broken _ g Hin Hg).
  unfold core_error, core_setFailed, emit. simpl. by rewrite <- !app_assoc.
Qed.

End WorkflowEffects.

Lemma run_assigns_then_notifies_witness :
  let table : gmap string (option string) :=
    <["bob" := None]> (<["amy" := Some "U7"]> ∅) in
  let p := pull_by "a" None in
  run no_handle example_env (octokit_with p) 3 (new_store (λ _, 0))
  = Normal tt
      {| pr := Some p; random := next_draws (λ _, 0);
         trace :=
           [ConsoleLog "RUNNING LOTTERY RUN FUNCTION";
            PullsList "octo" (Some "repo")] ++
           [RequestReviewers "octo" (Some "repo") (Some 7) [Some "amy"];
            ConsoleLogTable "usernameToSlackMap" table;
            WebhookSend (slack_text (slackUsernames table [Some "amy"])
                           (Some "Add feature")
                           (Some "https://example.test/pulls/7"))] |}.
Proof.
  intros table p.
  set (s1 := {| pr := Some p; random := λ _, 0;
                trace := [ConsoleLog "RUNNING LOTTERY RUN FUNCTION";
                          PullsList "octo" (Some "repo")] |}).
  apply (run_assigns_then_notifies no_handle example_env (octokit_with p) 3
           (new_store (λ _, 0))
           {| pr := None; random := λ _, 0;
              trace := [ConsoleLog "RUNNING LOTTERY RUN FUNCTION"] |}
           s1 [Some "amy"]
           {| pr := Some p; random := next_draws (λ _, 0); trace := trace s1 |}
           table eq_refl eq_refl).
  - vm_compute. reflexivity.
  - discriminate.
  - reflexivity.
  - reflexivity.
Defined.

Lemma run_request_rejected_witness :
  let p := pull_by "a" None in
  let e := Error "Validation Failed" in
  let octokit := {| pulls_list := inr [ {| head_ref := "feature"; pull := p |} ];
                    pulls_requestReviewers := Some e |} in
  run no_handle example_env octokit 3 (new_store (λ _, 0))
  = Normal tt
      {| pr := Some p; random := next_draws (λ _, 0);
         trace :=
           [ConsoleLog "RUNNING LOTTERY RUN FUNCTION";
            PullsList "octo" (Some "repo")] ++
           [RequestReviewers "octo" (Some "repo") (Some 7) [Some "amy"];
            CoreError e; CoreSetFailed e] |}.
Proof.
  intros p e octokit.
  set (s1 := {| pr := Some p; random := λ _, 0;
                trace := [ConsoleLog "RUNNING LOTTERY RUN FUNCTION";
                          PullsList "octo" (Some "repo")] |}).
  apply (run_request_rejected no_handle example_env octokit 3
           (new_store (λ _, 0))
           {| pr := None; random := λ _, 0;
              trace := [ConsoleLog "RUNNING LOTTERY RUN FUNCTION"] |}
           s1 [Some "amy"]
           {| pr := Some p; random := next_draws (λ _, 0); trace := trace s1 |}
           e eq_refl eq_refl).
  - vm_compute. reflexivity.
  - discriminate.
  - reflexivity.
Defined.

Lemma run_broken_group_not_notified_witness :
  let p := pull_by "a" None in
  run broken_last_group example_env (octokit_with p) 3 (new_store (λ _, 0))
  = Normal tt
      {| pr := Some p; random := next_draws (λ _, 0);
         trace :=
           [ConsoleLog "RUNNING LOTTERY RUN FUNCTION";
            PullsList "octo" (Some "repo");
            CoreError map_of_undefined; CoreSetFailed map_of_undefined] ++
           [RequestReviewers "octo" (Some "repo") (Some 7) [Some "b"];
            CoreError not_iterable; CoreSetFailed not_iterable] |}.
Proof.
  intros p.
  set (s1 := {| pr := Some p; random := λ _, 0;
                trace := [ConsoleLog "RUNNING LOTTERY RUN FUNCTION";
                          PullsList "octo" (Some "repo")] |}).
  apply (run_broken_group_not_notified broken_last_group example_env
           (octokit_with p) 3 (new_store (λ _, 0))
           {| pr := None; random := λ _, 0;
              trace := [ConsoleLog "RUNNING LOTTERY RUN FUNCTION"] |}
           s1 [Some "b"]
           {| pr := Some p; random := next_draws (λ _, 0);
              trace := trace s1 ++ [CoreError map_of_undefined;
                                    CoreSetFailed map_of_undefined] |}
           broken_group eq_refl eq_refl).
  - vm_compute. reflexivity.
  - discriminate.
  - reflexivity.
  - apply elem_of_cons. right. apply elem_of_cons. by left.
  - reflexivity.
Defined.

Section Fetches.
Context (config : Config) (env : Env) (octokit : Octokit).

Local Abbreviation getPR := (getPR env octokit).
Local Abbreviation isReadyToReview := (isReadyToReview env octokit).
Local Abbreviation getPRAuthor := (getPRAuthor env octokit).
Local Abbreviation setReviewers := (setReviewers env octokit).
Local Abbreviation alertOnSlack := (alertOnSlack config).
Local Abbreviation selectReviewers := (selectReviewers config env octokit).
Local Abbreviation run := (run config env octokit).
Local Abbreviation owner := (getOwnerAndRepo env).1.
Local Abbreviation repo := (getOwnerAndRepo env).2.

Lemma keeps_quiet_getPR : keeps quiet getPR.
Proof.
  intros s. destruct (pr s) as [p|] eqn:Hpr.
  - rewrite (getPR_cached env octokit s p Hpr). reflexivity.
  - destruct (getPR_normal env octokit s) as (v & s1 & -> & _).
    intros [p Hp]. congruence.
Qed.

Lemma keeps_quiet_getPRAuthor : keeps quiet getPRAuthor.
Proof.
  intros s. pose proof (keeps_quiet_getPR s) as H.
  destruct (getPR_normal env octokit s) as (v & s1 & Hget & _).
  rewrite Hget in H. by rewrite (getPRAuthor_getPR _ _ _ _ _ Hget).
Qed.

Lemma keeps_quiet_isReadyToReview : keeps quiet isReadyToReview.
Proof.
  intros s. pose proof (keeps_quiet_getPR s) as H.
  destruct (getPR_normal env octokit s) as (v & s1 & Hget & _).
  rewrite Hget in H. by rewrite (isReadyToReview_getPR _ _ _ _ _ Hget).
Qed.

Lemma keeps_quiet_selectReviewers fuel : keeps quiet (selectReviewers fuel).
Proof.
  unfold selectReviewers.
  apply keeps_bind; [apply _|apply keeps_quiet_getPRAuthor|intros author].
  apply keeps_bind; [apply _|apply keeps_quiet_select_groups|].
  intros [selected thrown].
  apply keeps_bind; [apply _| |intros _; by apply keeps_ret].
  destruct thrown; [apply keeps_quiet_report | by apply keeps_ret].
Qed.

Lemma keeps_quiet_setReviewers reviewers : keeps quiet (setReviewers reviewers).
Proof.
  intros s. rewrite (setReviewers_run env octokit). cbv zeta.
  destruct (pulls_requestReviewers octokit); intros _; simpl;
    by rewrite fetches_snoc.
Qed.

Lemma keeps_quiet_alertOnSlack reviewers : keeps quiet (alertOnSlack reviewers).
Proof.
  intros s. rewrite (alertOnSlack_run config).
  destruct (slack_table _ _); [reflexivity|]. intros _. simpl.
  change (trace s ++ [?a; ?b]) with (trace s ++ [a] ++ [b]).
  by rewrite app_assoc, !fetches_snoc.
Qed.

(** A run lists the open pull requests exactly once when no pull request
    is cached, and not at all when one is. *)
Theorem run_fetches_once fuel s s' :
  run fuel s = Normal tt s' →
  fetches (trace s') =
  fetches (trace s) ++ match pr s with Some _ => [] | None => [PullsList owner repo] end.
Proof.
  unfold run.
  set (s0 := {| pr := pr s; random := random s;
                trace := trace s ++ [ConsoleLog "RUNNING LOTTERY RUN FUNCTION"] |}).
  assert (console_log "RUNNING LOTTERY RUN FUNCTION" s = Normal tt s0) as Hlog
    by reflexivity.
  rewrite (bind_run _ _ _ _ _ Hlog).
  destruct (isReadyToReview_normal env octokit s0) as (b & s1 & Hready & Hb).
  assert (fetches (trace s1) =
          fetches (trace s) ++ match pr s with Some _ => [] | None => [PullsList owner repo] end
          ∧ (pr s1 = None → b = false)) as [Hs1 Hnone].
  { destruct (pr s) as [p|] eqn:Hpr.
    - pose proof (keeps_quiet_isReadyToReview s0) as Hq. rewrite Hready in Hq.
      destruct Hq as [Hpr1 Hf]; [by exists p|]. split.
      + rewrite Hf, app_nil_r. by apply fetches_snoc.
      + intros Hn. rewrite Hn in Hpr1. unfold s0 in Hpr1. simpl in Hpr1.
        congruence.
    - assert (getPR s0 = Normal (pr s1) s1) as Hget.
      { destruct (getPR_normal env octokit s0) as (v & s1' & Hget & Hv & _).
        rewrite (isReadyToReview_getPR _ _ _ _ _ Hget) in Hready.
        injection Hready as _ <-. by rewrite Hv. }
      split.
      + rewrite (getPR_fetch env octokit s0 eq_refl) in Hget.
        destruct (pulls_list octokit) as [e|data].
        * injection Hget as _ <-. simpl.
          change (?t ++ [?a; ?b; ?c]) with (t ++ [a] ++ [b] ++ [c]).
          rewrite !app_assoc, !fetches_snoc by done.
          unfold fetches. rewrite filter_app. f_equal.
          by apply (fetches_snoc (trace s)).
        * destruct (List.find _ data) as [d|].
          -- injection Hget as _ <-. simpl. unfold fetches.
             rewrite filter_app. f_equal. by apply (fetches_snoc (trace s)).
          -- injection Hget as _ <-. simpl.
             change (?t ++ [?a; ?b; ?c]) with (t ++ [a] ++ [b] ++ [c]).
             rewrite !app_assoc, !fetches_snoc by done.
             unfold fetches. rewrite filter_app. f_equal.
             by apply (fetches_snoc (trace s)).
      + intros Hpr1. destruct b; [|done]. destruct (Hb eq_refl). congruence. }
  rewrite (try_catch_bind_run _ _ _ _ _ _ Hready).
  destruct b; cbv beta iota.
  - match goal with |- try_catch ?body ?handler s1 = _ → _ =>
      assert (keeps quiet (try_catch body handler)) as Hq
    end.
    { apply keeps_try_catch; [apply _| |intros e; apply keeps_quiet_report].
      apply keeps_bind; [apply _|apply keeps_quiet_selectReviewers|].
      intros reviewers. unfold and_then.
      apply keeps_bind; [apply _| |intros _]; case_bool_decide;
        first [apply keeps_quiet_setReviewers | apply keeps_quiet_alertOnSlack
              | by apply keeps_ret]. }
    intros Hrun. specialize (Hq s1). rewrite Hrun in Hq.
    destruct Hq as [_ Hf]; [by apply Hb|]. by rewrite Hf.
  - intros [= <-]. done.
Qed.

End Fetches.

Lemma run_fetches_once_witness :
  let e := Error "Validation Failed" in
  let octokit :=
    {| pulls_list := inr [ {| head_ref := "feature"; pull := pull_by "a" None |} ];
       pulls_requestReviewers := Some e |} in
  let after :=
    [ConsoleLog "RUNNING LOTTERY RUN FUNCTION";
     PullsList "octo" (Some "repo");
     RequestReviewers "octo" (Some "repo") (Some 7) [Some "amy"];
     CoreError e; CoreSetFailed e] in
  fetches after = [PullsList "octo" (Some "repo")].
Proof.
  intros e octokit after.
  apply (run_fetches_once no_handle example_env octokit 3 (new_store (λ _, 0))
           {| pr := Some (pull_by "a" None); random := next_draws (λ _, 0);
              trace := after |}).
  vm_compute. reflexivity.
Defined.

(** * Entries, usernames and contact handles *)

Lemma split_unfold sep c rest :
  split sep (String c rest) =
  if Ascii.eqb c sep
  then (EmptyString, (split sep rest).1 :: (split sep rest).2)
  else (String c (split sep rest).1, (split sep rest).2).
Proof. simpl. by destruct (split sep rest). Qed.

Lemma has_char_cons sep c u :
  has_char sep (String c u) = false ↔
  Ascii.eqb c sep = false ∧ has_char sep u = false.
Proof. simpl. apply orb_false_iff. Qed.

Lemma split_no_sep sep u : has_char sep u = false → split sep u = (u, []).
Proof.
  induction u as [|c u IH]; [done|]. intros [Hc Hu]%has_char_cons.
  by rewrite split_unfold, Hc, (IH Hu).
Qed.

Lemma split_at_first sep u rest :
  has_char sep u = false →
  split sep (u +:+ String sep rest)
  = (u, (split sep rest).1 :: (split sep rest).2).
Proof.
  induction u as [|c u IH].
  - intros _. change ("" +:+ String sep rest) with (String sep rest).
    by rewrite split_unfold, Ascii.eqb_refl.
  - intros [Hc Hu]%has_char_cons.
    change (String c u +:+ String sep rest)
      with (String c (u +:+ String sep rest)).
    by rewrite split_unfold, Hc, (IH Hu).
Qed.

Lemma split_first_no_sep sep s : has_char sep (split sep s).1 = false.
Proof.
  induction s as [|c s IH]; [done|]. rewrite split_unfold.
  destruct (Ascii.eqb c sep) eqn:Hc; [done|]. simpl. by rewrite Hc, IH.
Qed.

(** How an entry of the configuration is read. For a username [u] and a
    handle [h] without [':'], the entry [u:h] gives [selectReviewers] the
    candidate [u] and [alertOnSlack] the table entry of [u] with [h]; the
    entry [u] alone gives the candidate [u] and the table entry of [u]
    with [undefined]. *)
Theorem entry_username_and_handle u h table :
  has_char ":" u = false →
  has_char ":" h = false →
  strip_handles [u +:+ ":" +:+ h; u] = [u; u]
  ∧ add_entry table (u +:+ ":" +:+ h) = object_set u (Some h) table
  ∧ add_entry table u = object_set u None table.
Proof.
  intros Hu Hh. unfold strip_handles, add_entry. simpl map.
  change (":" +:+ h) with (String ":" h).
  rewrite (split_at_first ":" u h Hu), (split_no_sep ":" h Hh),
    (split_no_sep ":" u Hu). done.
Qed.

Lemma entry_username_and_handle_witness :
  strip_handles ["amy" +:+ ":" +:+ "U7"; "amy"] = ["amy"; "amy"]
  ∧ add_entry ∅ ("amy" +:+ ":" +:+ "U7") = object_set "amy" (Some "U7") ∅
  ∧ add_entry ∅ "amy" = object_set "amy" None ∅.
Proof.
  apply (entry_username_and_handle "amy" "U7" ∅); reflexivity.
Defined.

(** No candidate that [selectReviewers] hands to [pickRandom] has a
    [':'] in it. *)
Theorem strip_handles_no_colon entries x :
  x ∈ strip_handles entries → has_char ":" x = false.
Proof.
  unfold strip_handles. intros Hx. apply list_elem_of_In, in_map_iff in Hx.
  destruct Hx as (e & <- & _). apply split_first_no_sep.
Qed.

Lemma strip_handles_no_colon_witness :
  has_char ":" "amy" = false.
Proof.
  apply (strip_handles_no_colon ["amy:U7:x"; "bob"] "amy").
  apply elem_of_cons. by left.
Defined.

(** A user whose last entry in the configuration is [u:h], with [u] other
    than ["__proto__"], is in the table of [alertOnSlack] with the handle
    [h], and is mentioned as [@h]. *)
Theorem alertOnSlack_handle config table u h l1 l2 :
  slack_table (groups config) ∅ = inr table →
  u ≠ "__proto__" →
  has_char ":" u = false →
  has_char ":" h = false →
  all_entries (groups config) = l1 ++ (u +:+ ":" +:+ h) :: l2 →
  (∀ e, e ∈ l2 → (split ":" e).1 ≠ u) →
  table !! u = Some (Some h)
  ∧ mention table (Some u) = "@" +:+ h.
Proof.
  intros Htable Hproto Hu Hh Hentries Hlast.
  assert (split ":" (u +:+ ":" +:+ h) = (u, [h])) as Hsplit.
  { change (":" +:+ h) with (String ":" h).
    by rewrite (split_at_first ":" u h Hu), (split_no_sep ":" h Hh). }
  assert (table !! u = Some (Some h)) as Hlookup.
  { rewrite (slack_table_entries _ _ _ Htable), Hentries, foldl_app. simpl.
    rewrite foldl_add_entry_other by done.
    pose proof (add_entry_key (foldl add_entry ∅ l1) (u +:+ ":" +:+ h)) as Hkey.
    rewrite Hsplit in Hkey. simpl in Hkey. by apply Hkey. }
  split; [done|]. unfold mention, object_get. simpl.
  rewrite bool_decide_eq_false_2 by done. by rewrite Hlookup.
Qed.

Lemma alertOnSlack_handle_witness :
  let table : gmap string (option string) :=
    <["bob" := None]> (<["amy" := Some "U7"]> ∅) in
  table !! "amy" = Some (Some "U7")
  ∧ mention table (Some "amy") = "@" +:+ "U7".
Proof.
  intros table.
  apply (alertOnSlack_handle no_handle table "amy" "U7" [] ["bob"]);
    try reflexivity; try discriminate.
  intros e ->%list_elem_of_singleton. discriminate.
Defined.

(** A reviewer that no entry of the configuration names is mentioned as
    [@undefined], unless its name is a property of every object. This is
    the case of the [undefined] that an exhausted pool yields, which is
    looked up under ["undefined"]. *)
Theorem mention_unlisted config table r :
  slack_table (groups config) ∅ = inr table →
  (∀ e, e ∈ all_entries (groups config) → (split ":" e).1 ≠ property_key r) →
  property_key r ≠ "__proto__" →
  list_to_map (M := gmap string string) object_prototype !! property_key r
    = None →
  mention table r = "@undefined".
Proof.
  intros Htable Hentries Hproto Hinherited.
  unfold mention, object_get. rewrite bool_decide_eq_false_2 by done.
  rewrite (slack_table_entries _ _ _ Htable).
  rewrite foldl_add_entry_other by done.
  by rewrite lookup_empty, Hinherited.
Qed.

Lemma mention_unlisted_witness :
  mention (<["bob" := None]> (<["amy" := Some "U7"]> ∅)) None = "@undefined".
Proof.
  apply (mention_unlisted no_handle _ None).
  - reflexivity.
  - intros e [->|[->|He]%elem_of_cons]%elem_of_cons;
      [discriminate..|by apply elem_of_nil in He].
  - discriminate.
  - reflexivity.
Defined.

(** [getOwnerAndRepo] on a repository ["owner/repo"] gives the two
    names; on a repository without ['/'] it gives the whole string as
    the owner and [undefined] as the repository name. *)
Theorem getOwnerAndRepo_split o r branch :
  has_char "/" o = false →
  has_char "/" r = false →
  getOwnerAndRepo {| repository := o +:+ "/" +:+ r; ref := branch |}
    = (o, Some r)
  ∧ getOwnerAndRepo {| repository := o; ref := branch |} = (o, None).
Proof.
  intros Ho Hr. unfold getOwnerAndRepo. simpl repository.
  change ("/" +:+ r) with (String "/" r).
  by rewrite (split_at_first "/" o r Ho), (split_no_sep "/" r Hr),
    (split_no_sep "/" o Ho).
Qed.

Lemma getOwnerAndRepo_split_witness :
  getOwnerAndRepo {| repository := "octo" +:+ "/" +:+ "repo"; ref := "feature" |}
    = ("octo", Some "repo")
  ∧ getOwnerAndRepo {| repository := "octo"; ref := "feature" |}
    = ("octo", None).
Proof.
  apply (getOwnerAndRepo_split "octo" "repo" "feature"); reflexivity.
Defined.

(** * The entry points *)

Section MainFacts.
Context (vars : gmap string string).
Context (getInput : string → JsError + string).
Context (getConfig : JsError + Config).
Context (octokit_for : string → Octokit).

Local Abbreviation main_setup := (main_setup vars getInput getConfig).
Local Abbreviation main_run := (main_run vars getInput getConfig octokit_for).
Local Abbreviation main_ts := (main_ts vars getInput getConfig octokit_for).
Local Abbreviation default_env := (default_env vars).

Lemma runLottery_never_throws octokit config env fuel rs e s :
  runLottery octokit config env fuel rs ≠ Throw e s.
Proof.
  unfold runLottery.
  assert (console_log "RUNNING LOTTERY FUNCTION" (new_store rs)
          = Normal tt {| pr := None; random := rs;
                         trace := [ConsoleLog "RUNNING LOTTERY FUNCTION"] |})
    as Hlog by reflexivity.
  rewrite (bind_run _ _ _ _ _ Hlog). apply run_no_throw.
Qed.

(** An entry point calls [core.setFailed] with a message itself only for
    an error of its own first steps (a missing variable, a missing input,
    an unreadable configuration), and then it has done nothing else: the
    lottery was not started. Every error after that is reported by the
    lottery. *)
Theorem main_reports_setup_errors_only checked fuel rs events msg :
  main_run checked fuel rs = Some events →
  SetFailedMessage msg ∈ events →
  main_setup checked = inl (Error msg) ∧ events = [SetFailedMessage msg].
Proof.
  unfold main_run. destruct (main_setup checked) as [[msg']|[[token url] config]].
  - intros [= <-] [= ->]%list_elem_of_singleton. done.
  - destruct (runLottery _ _ _ _ _) as [[] s|e s|] eqn:Hrun; [| |done].
    + intros [= <-] (ev & [=] & _)%list_elem_of_fmap.
    + by apply runLottery_never_throws in Hrun.
Qed.

(** [main.ts] tests [GITHUB_REF], but the lottery looks for the pull
    request of [GITHUB_HEAD_REF]. With [GITHUB_REF] set and
    [GITHUB_HEAD_REF] not, the test passes and the lottery looks for a
    pull request whose [head.ref] is the empty string: when GitHub lists
    none, the run ends with the error that no pull request matches. *)
Theorem main_ts_without_head_ref fuel rs r repository token url config data :
  vars !! "GITHUB_REF" = Some r → r ≠ "" →
  vars !! "GITHUB_REPOSITORY" = Some repository → repository ≠ "" →
  vars !! "GITHUB_HEAD_REF" = None →
  getInput "repo-token" = inr token →
  getInput "slack-webhook-url" = inr url →
  getConfig = inr config →
  pulls_list (octokit_for token) = inr data →
  (∀ d, d ∈ data → head_ref d ≠ "") →
  main_ts fuel rs =
  Some (OfLottery <$>
          [ConsoleLog "RUNNING LOTTERY FUNCTION";
           ConsoleLog "RUNNING LOTTERY RUN FUNCTION";
           PullsList (getOwnerAndRepo default_env).1
             (getOwnerAndRepo default_env).2;
           CoreError (Error "PR matching ref not found: ");
           CoreSetFailed (Error "PR matching ref not found: ")]).
Proof.
  intros Href Hr Hrepo Hrepository Hhead Htoken Hurl Hconfig Hlist Hdata.
  assert (main_setup "GITHUB_REF" = inr (token, url, config)) as Hsetup.
  { unfold main_setup. rewrite Href, Hrepo, Htoken, Hurl, Hconfig. simpl.
    by rewrite !bool_decide_eq_false_2. }
  assert (ref default_env = "") as Hempty.
  { unfold default_env. simpl. by rewrite Hhead. }
  unfold main_ts, main_run. rewrite Hsetup. unfold runLottery.
  assert (console_log "RUNNING LOTTERY FUNCTION" (new_store rs)
          = Normal tt {| pr := None; random := rs;
                         trace := [ConsoleLog "RUNNING LOTTERY FUNCTION"] |})
    as Hlog by reflexivity.
  rewrite (bind_run _ _ _ _ _ Hlog).
  rewrite (run_lookup_failed config default_env (octokit_for token) fuel
             {| pr := None; random := rs;
                trace := [ConsoleLog "RUNNING LOTTERY FUNCTION"] |}
             {| pr := None; random := rs;
                trace := [ConsoleLog "RUNNING LOTTERY FUNCTION";
                          ConsoleLog "RUNNING LOTTERY RUN FUNCTION";
                          PullsList (getOwnerAndRepo default_env).1
                            (getOwnerAndRepo default_env).2;
                          CoreError (Error "PR matching ref not found: ");
                          CoreSetFailed (Error "PR matching ref not found: ")] |});
    [done|].
  rewrite getPR_fetch by done. rewrite Hlist, find_no_match.
  - by rewrite Hempty.
  - by rewrite Hempty.
Qed.

End MainFacts.

Lemma main_reports_setup_errors_only_witness :
  let vars : gmap string string := {[ "GITHUB_REF" := "refs/heads/main" ]} in
  main_setup vars (λ _, inr "secret") (inr scenario_A) "GITHUB_REF"
    = inl (Error "missing GITHUB_REPOSITORY")
  ∧ [SetFailedMessage "missing GITHUB_REPOSITORY"]
    = [SetFailedMessage "missing GITHUB_REPOSITORY"].
Proof.
  intros vars.
  apply (main_reports_setup_errors_only vars (λ _, inr "secret")
           (inr scenario_A) (λ _, octokit_with (pull_by "a" None))
           "GITHUB_REF" 3 (λ _, 0)).
  - vm_compute. reflexivity.
  - by apply list_elem_of_singleton.
Defined.

Lemma main_ts_without_head_ref_witness :
  let vars : gmap string string :=
    <["GITHUB_REPOSITORY" := "octo/repo"]>
      {[ "GITHUB_REF" := "refs/heads/main" ]} in
  main_ts vars (λ _, inr "secret") (inr scenario_A)
    (λ _, octokit_with (pull_by "a" None)) 3 (λ _, 0)
  = Some (OfLottery <$>
            [ConsoleLog "RUNNING LOTTERY FUNCTION";
             ConsoleLog "RUNNING LOTTERY RUN FUNCTION";
             PullsList "octo" (Some "repo");
             CoreError (Error "PR matching ref not found: ");
             CoreSetFailed (Error "PR matching ref not found: ")]).
Proof.
  intros vars.
  apply (main_ts_without_head_ref vars (λ _, inr "secret") (inr scenario_A)
           (λ _, octokit_with (pull_by "a" None)) 3 (λ _, 0)
           "refs/heads/main" "octo/repo" "secret" "secret" scenario_A
           [ {| head_ref := "feature"; pull := pull_by "a" None |} ]);
    try reflexivity; try discriminate.
  intros d ->%list_elem_of_singleton. discriminate.
Defined.

(** The other entry file tests the variable that the lottery uses. With
    [GITHUB_HEAD_REF] unset or empty it stops at once with the message
    that it is missing; and whenever its first steps succeed, the ref and
    the repository that the lottery gets are the non-empty values of
    [GITHUB_HEAD_REF] and [GITHUB_REPOSITORY]. *)
Theorem main_head_ref_checks_ref vars getInput getConfig octokit_for fuel rs :
  (truthy_string (vars !! "GITHUB_HEAD_REF") = false →
   main_head_ref vars getInput getConfig octokit_for fuel rs
   = Some [SetCommandEcho true; MainLog "RUNNING MAIN FUNCTION";
           SetFailedMessage "missing GITHUB_HEAD_REF"])
  ∧ (∀ setup,
       main_setup vars getInput getConfig "GITHUB_HEAD_REF" = inr setup →
       vars !! "GITHUB_HEAD_REF" = Some (ref (default_env vars))
       ∧ ref (default_env vars) ≠ ""
       ∧ vars !! "GITHUB_REPOSITORY" = Some (repository (default_env vars))
       ∧ repository (default_env vars) ≠ "").
Proof.
  split.
  - intros Hfalsy. unfold main_head_ref, main_run, main_setup.
    by rewrite Hfalsy.
  - intros setup. unfold main_setup, default_env. simpl.
    destruct (vars !! "GITHUB_HEAD_REF") as [r|]; [|done]. simpl.
    case_bool_decide as Hr; [done|]. simpl.
    destruct (vars !! "GITHUB_REPOSITORY") as [repository|]; [|done]. simpl.
    case_bool_decide as Hrepository; [done|]. simpl. done.
Qed.

Lemma main_head_ref_checks_ref_witness :
  let vars : gmap string string :=
    <["GITHUB_REPOSITORY" := "octo/repo"]>
      {[ "GITHUB_REF" := "refs/heads/main" ]} in
  let full : gmap string string := <["GITHUB_HEAD_REF" := "feature"]> vars in
  main_head_ref vars (λ _, inr "secret") (inr scenario_A)
    (λ _, octokit_with (pull_by "a" None)) 3 (λ _, 0)
  = Some [SetCommandEcho true; MainLog "RUNNING MAIN FUNCTION";
          SetFailedMessage "missing GITHUB_HEAD_REF"]
  ∧ ref (default_env full) ≠ "".
Proof.
  intros vars full. split.
  - apply (main_head_ref_checks_ref vars (λ _, inr "secret") (inr scenario_A)
             (λ _, octokit_with (pull_by "a" None)) 3 (λ _, 0)).
    reflexivity.
  - destruct (main_head_ref_checks_ref full (λ _, inr "secret")
                (inr scenario_A) (λ _, octokit_with (pull_by "a" None))
                3 (λ _, 0)) as [_ Hset].
    apply (Hset ("secret", "secret", scenario_A)). reflexivity.
Defined.

(** [isReadyToReview] returns [true] exactly when a pull request is
    cached afterwards and its draft flag is not [true]: a pull request
    without the flag is ready, and a lookup that fails is not. *)
Theorem isReadyToReview_ready_iff env octokit s b s1 :
  isReadyToReview env octokit s = Normal b s1 →
  b = true ↔ ∃ p, pr s1 = Some p ∧ draft p ≠ Some true.
Proof.
  destruct (getPR_normal env octokit s) as (v & s1' & Hget & Hpr & _).
  rewrite (isReadyToReview_getPR _ _ _ _ _ Hget). intros [= <- <-].
  rewrite Hpr. destruct v as [p|].
  - destruct (draft p) as [[|]|] eqn:Hdraft; simpl; split; try done.
    + intros (p' & [= <-] & Hp'). congruence.
    + intros _. exists p. split; [done|]. congruence.
    + intros _. exists p. split; [done|]. congruence.
  - split; [done|]. by intros (p & ? & _).
Qed.

Lemma isReadyToReview_ready_iff_witness :
  true = true ↔
  ∃ p, Some (pull_by "a" None) = Some p ∧ draft p ≠ Some true.
Proof.
  apply (isReadyToReview_ready_iff example_env
           (octokit_with (pull_by "a" None)) (new_store (λ _, 0)) true
           {| pr := Some (pull_by "a" None); random := λ _, 0;
              trace := [PullsList "octo" (Some "repo")] |}).
  reflexivity.
Defined.
